(** * Verification of the One Day Maid service worker (sw.js)

    A shallow embedding of the service worker's policy code: the request
    classifier [shouldNotCache], the install and activate handlers, the two
    fetch listeners (router and update notifier), and the host capabilities
    they call (CacheStorage, fetch, clients), followed by the properties
    stated for them. *)

From Stdlib Require Import String Ascii List ZArith Bool Lia.
From stdpp Require Import gmap strings.

(** ** JavaScript string primitives used by sw.js *)

Module JSString.

(** [s.endsWith(suffix)]: compares the last [length suffix] code units. *)
Definition endsWith (s suffix : string) : bool :=
  let n := String.length s in
  let m := String.length suffix in
  (m <=? n)%nat && String.eqb (substring (n - m) m s) suffix.

(** [s.includes(sub)]: [sub] occurs at some position of [s]. *)
Fixpoint includes (s sub : string) : bool :=
  String.prefix sub s ||
  match s with
  | EmptyString => false
  | String _ s' => includes s' sub
  end.

End JSString.

(** ** Module constants (sw.js lines 1-18) *)

Definition CACHE_NAME : string := "one-day-maid-v1".
Definition STATIC_CACHE_NAME : string := "one-day-maid-static-v1".

Definition STATIC_FILES : list string :=
  ["/"; "/index.html"; "/styles.css"; "/script.js"; "/manifest.json"].

Definition NO_CACHE_FILES : list string :=
  ["/index.html"; "/script.js"; "/styles.css"].

(** ** Request classifier (sw.js lines 123-125) *)

Definition shouldNotCache (pathname : string) : bool :=
  existsb (fun file => JSString.endsWith pathname file || String.eqb pathname file)
          NO_CACHE_FILES.

(** The two policies the router chooses between on [shouldNotCache]
    (sw.js line 76): network-first for a match, cache-first otherwise. *)
Inductive Policy : Type := ALWAYS_FRESH | CACHE_PREFERRED.

Definition classify (pathname : string) : Policy :=
  if shouldNotCache pathname then ALWAYS_FRESH else CACHE_PREFERRED.

(** ** Requests, responses and URLs (host data, as the handlers read them) *)

(** [Response.type] is an enumeration of strings in the Fetch API. *)
Inductive ResponseType : Type :=
  basic | cors | default | error | opaque | opaqueredirect.

Definition ResponseType_eqb (a b : ResponseType) : bool :=
  match a, b with
  | basic, basic | cors, cors | default, default
  | error, error | opaque, opaque | opaqueredirect, opaqueredirect => true
  | _, _ => false
  end.

Record Response : Type := { status : Z; type : ResponseType; body : string }.

Record Request : Type := { method : string; url : string }.

(** The fields of [new URL(...)] that the router reads. *)
Record URL : Type := { origin : string; pathname : string }.

(** [response.clone()] yields a response with the same contents. *)
Definition clone (r : Response) : Response := r.

(** [response.ok]: status in the range 200-299 (required by [cache.addAll]). *)
Definition ok (r : Response) : bool := (200 <=? status r)%Z && (status r <=? 299)%Z.

(** ** Settled promises, stores and observable effects *)

Inductive Settled (A : Type) : Type :=
| Fulfilled (value : A)
| Rejected (reason : string).
Arguments Fulfilled {A} value.
Arguments Rejected {A} reason.

(** A cache maps the URL of a GET request to the stored response. *)
Abbreviation Cache := (gmap string Response).

(** [CacheStorage]: the named caches in creation order ([caches.keys()] and
    [caches.match] follow that order). *)
Definition CacheStorage : Type := list (string * Cache).

(** Calls on host capabilities other than the cache store, in call order. *)
Inductive Effect : Type :=
| ConsoleLog (args : list string)
| ConsoleError (args : list string)
| NetworkFetch (request : Request)
| SkipWaiting
| ClientsClaim
| CacheDelete (cacheName : string)
| PostMessage (client : string) (messageType : string).

Record Outcome (R : Type) : Type :=
  { stores : CacheStorage; effects : list Effect; result : R }.
Arguments stores {R} _.
Arguments effects {R} _.
Arguments result {R} _.

(** A promise chain run to completion from the given stores: the stores it
    leaves, the host calls it made and how it settled. *)
Definition Promise (A : Type) : Type := CacheStorage -> Outcome (Settled A).

(** What the host decides: the worker's origin, URL parsing, the outcome of
    each network fetch ([None] is a JS [undefined] value, which the router
    guards against with [!fetchResponse]), which store operations it rejects,
    and the connected clients. *)
Record Host : Type := {
  location_origin : string;
  parseURL : string -> URL;
  fetch_result : Request -> Settled (option Response);
  delete_rejects : string -> bool;
  put_rejects : Request -> Response -> bool;
  connected_clients : list string
}.

(** ** Promise combinators *)

Definition resolve {A} (a : A) : Promise A :=
  fun s => {| stores := s; effects := []; result := Fulfilled a |}.

Definition reject {A} (reason : string) : Promise A :=
  fun s => {| stores := s; effects := []; result := Rejected reason |}.

(** A synchronous host call made from inside a chain. *)
Definition emit (e : Effect) : Promise unit :=
  fun s => {| stores := s; effects := [e]; result := Fulfilled tt |}.

(** [p.then(f)] *)
Definition then_ {A B} (p : Promise A) (f : A -> Promise B) : Promise B :=
  fun s =>
    let o := p s in
    match result o with
    | Fulfilled a =>
        let o' := f a (stores o) in
        {| stores := stores o'; effects := effects o ++ effects o'; result := result o' |}
    | Rejected reason =>
        {| stores := stores o; effects := effects o; result := Rejected reason |}
    end.

(** [p.catch(h)] *)
Definition catch_ {A} (p : Promise A) (h : string -> Promise A) : Promise A :=
  fun s =>
    let o := p s in
    match result o with
    | Fulfilled a => o
    | Rejected reason =>
        let o' := h reason (stores o) in
        {| stores := stores o'; effects := effects o ++ effects o'; result := result o' |}
    end.

(** A chain that is started but whose promise is not returned to the caller:
    its effects happen, its settlement is dropped. *)
Definition detached {A} (p : Promise A) : Promise unit :=
  fun s =>
    let o := p s in
    {| stores := stores o; effects := effects o; result := Fulfilled tt |}.

(** [Promise.all(ps)]: every promise of the list runs; the result is the list
    of values, or the first rejection. *)
Fixpoint Promise_all {A} (ps : list (Promise A)) : Promise (list A) :=
  match ps with
  | [] => resolve []
  | p :: ps' =>
      fun s =>
        let o := p s in
        let o' := Promise_all ps' (stores o) in
        {| stores := stores o';
           effects := effects o ++ effects o';
           result := match result o, result o' with
                     | Fulfilled a, Fulfilled l => Fulfilled (a :: l)
                     | Rejected reason, _ => Rejected reason
                     | Fulfilled _, Rejected reason => Rejected reason
                     end |}
  end.

Notation "p '>>' q" := (then_ p (fun _ => q)) (at level 62, right associativity).

(** ** Host capabilities: console, network, clients, CacheStorage *)

Definition console_log (args : list string) : Promise unit := emit (ConsoleLog args).
Definition console_error (args : list string) : Promise unit := emit (ConsoleError args).
Definition skipWaiting : Promise unit := emit SkipWaiting.
Definition clients_claim : Promise unit := emit ClientsClaim.

(** [fetch(request)] *)
Definition fetch (h : Host) (request : Request) : Promise (option Response) :=
  fun s => {| stores := s; effects := [NetworkFetch request]; result := fetch_result h request |}.

(** [self.clients.matchAll()] *)
Definition clients_matchAll (h : Host) : Promise (list string) :=
  resolve (connected_clients h).

(** [client.postMessage({type: messageType})] *)
Definition postMessage (client messageType : string) : Promise unit :=
  emit (PostMessage client messageType).

(** [xs.forEach(f)] for a callback with effects only. *)
Fixpoint forEach {A} (xs : list A) (f : A -> Promise unit) : Promise unit :=
  match xs with
  | [] => resolve tt
  | x :: xs' => f x >> forEach xs' f
  end.

Definition cacheNames_of (s : CacheStorage) : list string := map fst s.

(** The first store with the given name. *)
Fixpoint find_store (name : string) (s : CacheStorage) : option Cache :=
  match s with
  | [] => None
  | (n, c) :: s' => if String.eqb n name then Some c else find_store name s'
  end.

(** Replace the contents of the first store with the given name. *)
Fixpoint update_store (name : string) (f : Cache -> Cache) (s : CacheStorage) : CacheStorage :=
  match s with
  | [] => []
  | (n, c) :: s' =>
      if String.eqb n name then (n, f c) :: s' else (n, c) :: update_store name f s'
  end.

(** [caches.open(name)]: the store is created, empty, if it is absent; the
    handle is the store's name. *)
Definition caches_open (name : string) : Promise string :=
  fun s =>
    {| stores := match find_store name s with
                 | Some _ => s
                 | None => s ++ [(name, ∅)]
                 end;
       effects := [];
       result := Fulfilled name |}.

(** [caches.keys()] *)
Definition caches_keys : Promise (list string) :=
  fun s => {| stores := s; effects := []; result := Fulfilled (cacheNames_of s) |}.

(** [cache.match(request)]: only GET requests match, by URL. *)
Definition cache_lookup (c : Cache) (request : Request) : option Response :=
  if String.eqb (method request) "GET" then c !! url request else None.

(** The stored response [caches.match(request)] resolves to: the match of
    the first store, in creation order, that has one. *)
Fixpoint match_in (s : CacheStorage) (request : Request) : option Response :=
  match s with
  | [] => None
  | (_, c) :: s' =>
      match cache_lookup c request with
      | Some r => Some r
      | None => match_in s' request
      end
  end.

(** [caches.match(request)] *)
Definition caches_match (request : Request) : Promise (option Response) :=
  fun s => {| stores := s; effects := []; result := Fulfilled (match_in s request) |}.

(** [caches.delete(name)]: the store is removed and the promise resolves to
    whether it existed, unless the host rejects the deletion, which leaves
    the store in place. *)
Definition caches_delete (h : Host) (name : string) : Promise bool :=
  fun s =>
    if delete_rejects h name then
      {| stores := s; effects := [CacheDelete name];
         result := Rejected "caches.delete failed" |}
    else
      {| stores := List.filter (fun nc => negb (String.eqb (fst nc) name)) s;
         effects := [CacheDelete name];
         result := Fulfilled (existsb (String.eqb name) (cacheNames_of s)) |}.

(** [cache.put(request, response)] on the store behind the handle. *)
Definition cache_put (h : Host) (cache : string) (request : Request) (response : Response)
  : Promise unit :=
  fun s =>
    if put_rejects h request response then
      {| stores := s; effects := []; result := Rejected "cache.put failed" |}
    else
      {| stores := update_store cache (fun c => <[url request := response]> c) s;
         effects := []; result := Fulfilled tt |}.

(** The request [cache.addAll] makes for a path, resolved against the
    worker's origin. *)
Definition request_of_path (h : Host) (path : string) : Request :=
  {| method := "GET"; url := location_origin h +:+ path |}.

(** Whether one entry of an [addAll] can be fetched and stored. *)
Definition entry_cacheable (h : Host) (path : string) : bool :=
  match fetch_result h (request_of_path h path) with
  | Fulfilled (Some r) => ok r && negb (put_rejects h (request_of_path h path) r)
  | _ => false
  end.

(** The entries an [addAll] stores when every one of them is cacheable. *)
Fixpoint store_entries (h : Host) (paths : list string) (c : Cache) : Cache :=
  match paths with
  | [] => c
  | path :: paths' =>
      match fetch_result h (request_of_path h path) with
      | Fulfilled (Some r) =>
          store_entries h paths' (<[url (request_of_path h path) := r]> c)
      | _ => store_entries h paths' c
      end
  end.

(** [cache.addAll(paths)]: every path is fetched; all the responses are
    stored, or, if one entry fails, none is and the promise rejects. *)
Definition cache_addAll (h : Host) (cache : string) (paths : list string) : Promise unit :=
  fun s =>
    let fetches := map (fun path => NetworkFetch (request_of_path h path)) paths in
    if forallb (entry_cacheable h) paths then
      {| stores := update_store cache (store_entries h paths) s;
         effects := fetches; result := Fulfilled tt |}
    else
      {| stores := s; effects := fetches; result := Rejected "cache.addAll failed" |}.

(** ** Install handler (sw.js lines 21-37)

    The promise handed to [event.waitUntil]. *)
Definition install (h : Host) : Promise unit :=
  console_log ["Service Worker: Installing..."] >>
  catch_
    (then_
       (then_ (caches_open STATIC_CACHE_NAME)
          (fun cache =>
             console_log ["Service Worker: Caching essential files"] >>
             cache_addAll h cache STATIC_FILES))
       (fun _ =>
          console_log ["Service Worker: Installation complete"] >>
          skipWaiting))
    (fun error =>
       console_error ["Service Worker: Installation failed"; error]).

(** The worker's lifecycle states, and the host's rule for the install
    event: the worker becomes installed when the promise given to
    [waitUntil] is fulfilled, and the install attempt fails when it rejects. *)
Inductive Lifecycle : Type :=
  UNINSTALLED | INSTALLING | INSTALLED | ACTIVATING | ACTIVE.

Definition lifecycle_after_install (r : Settled unit) : Lifecycle :=
  match r with
  | Fulfilled _ => INSTALLED
  | Rejected _ => UNINSTALLED
  end.

(** ** Activate handler (sw.js lines 40-58) *)

(** The test of line 47. *)
Definition is_stale (cacheName : string) : bool :=
  negb (String.eqb cacheName CACHE_NAME) && negb (String.eqb cacheName STATIC_CACHE_NAME).

(** The callback of [cacheNames.map]: a deletion promise for a stale name,
    [undefined] for a current one. *)
Definition prune (h : Host) (cacheName : string) : Promise (option bool) :=
  if is_stale cacheName then
    console_log ["Service Worker: Deleting old cache"; cacheName] >>
    then_ (caches_delete h cacheName) (fun deleted => resolve (Some deleted))
  else resolve None.

(** The promise handed to [event.waitUntil]. *)
Definition activate (h : Host) : Promise unit :=
  console_log ["Service Worker: Activating..."] >>
  then_
    (then_ caches_keys (fun cacheNames => Promise_all (map (prune h) cacheNames)))
    (fun _ =>
       console_log ["Service Worker: Activation complete"] >>
       clients_claim).

(** ** Activation outcomes per store name *)

(** The deletion the activate handler asks for a name fails. *)
Definition deletion_fails (h : Host) (name : string) : bool :=
  is_stale name && delete_rejects h name.

(** A store outlives activation when it is current or the host refuses to
    delete it. *)
Definition survives (h : Host) (name : string) : bool :=
  negb (is_stale name) || delete_rejects h name.

(** A store is removed by pruning [names] when one of them is its own name,
    is stale and can be deleted. *)
Definition pruned_by (h : Host) (names : list string) (nc : string * Cache) : bool :=
  existsb (fun n => String.eqb (fst nc) n && negb (survives h n)) names.

(** ** Fetch listeners *)

(** What a fetch listener leaves behind: [Some p] when it called
    [event.respondWith(p)], with [p] run to its settlement, [None] when it
    returned without responding. *)
Definition Listener : Type := CacheStorage -> Outcome (option (Settled (option Response))).

Definition pass : Listener :=
  fun s => {| stores := s; effects := []; result := None |}.

Definition respondWith (p : Promise (option Response)) : Listener :=
  fun s =>
    let o := p s in
    {| stores := stores o; effects := effects o; result := Some (result o) |}.

(** The validity test of line 103, negated as in the source. *)
Definition not_cacheable (fetchResponse : option Response) : bool :=
  match fetchResponse with
  | None => true
  | Some r => negb (Z.eqb (status r) 200) || negb (ResponseType_eqb (type r) basic)
  end.

(** Router (sw.js lines 61-120). *)
Definition router (h : Host) (request : Request) : Listener :=
  let url := parseURL h (url request) in
  if negb (String.eqb (method request) "GET") then pass
  else if negb (String.eqb (origin url) (location_origin h)) then pass
  else if shouldNotCache (pathname url) then
    respondWith
      (catch_
         (then_ (fetch h request) (fun response => resolve response))
         (fun _ => caches_match request))
  else
    respondWith
      (then_ (caches_match request)
         (fun response =>
            match response with
            | Some cached => resolve (Some cached)
            | None =>
                then_ (fetch h request)
                  (fun fetchResponse =>
                     if not_cacheable fetchResponse then resolve fetchResponse
                     else
                       match fetchResponse with
                       | None => resolve fetchResponse
                       | Some r =>
                           let responseToCache := clone r in
                           detached
                             (then_ (caches_open CACHE_NAME)
                                (fun cache =>
                                   detached (cache_put h cache request responseToCache))) >>
                           resolve fetchResponse
                       end)
            end)).

(** Update notifier (sw.js lines 188-209). *)
Definition updateNotifier (h : Host) (request : Request) : Listener :=
  if JSString.includes (url request) "index.html"
     || String.eqb (url request) (location_origin h +:+ "/")
  then
    respondWith
      (catch_
         (then_ (fetch h request)
            (fun response =>
               detached
                 (then_ (clients_matchAll h)
                    (fun clients =>
                       forEach clients
                         (fun client => postMessage client "UPDATE_AVAILABLE"))) >>
               resolve response))
         (fun _ => caches_match request))
  else pass.

(** The test of line 190, under which the update notifier responds. *)
Definition notifier_condition (h : Host) (request : Request) : bool :=
  JSString.includes (url request) "index.html"
  || String.eqb (url request) (location_origin h +:+ "/").

(** Dispatch of one fetch event to the listeners in registration order.
    [event.respondWith] sets the event's stop-immediate-propagation flag, so
    once the router has responded the update notifier is not invoked. *)
Definition dispatchFetch (h : Host) (request : Request) : Listener :=
  fun s =>
    let o := router h request s in
    match result o with
    | Some r => o
    | None =>
        let o' := updateNotifier h request (stores o) in
        {| stores := stores o'; effects := effects o ++ effects o'; result := result o' |}
    end.

(** ** What the stated properties quantify over *)

(** A request the router handles: a GET for the worker's own origin. *)
Definition same_origin_GET (h : Host) (request : Request) : Prop :=
  method request = "GET" /\ origin (parseURL h (url request)) = location_origin h.

(** The policy the router applies to a request. *)
Definition policy_of (h : Host) (request : Request) : Policy :=
  classify (pathname (parseURL h (url request))).

(** A request for the application's root document: the root URL with no
    further path, or the root document's own path. *)
Definition targets_root_document (h : Host) (request : Request) : Prop :=
  url request = location_origin h +:+ "/" \/
  url request = location_origin h +:+ "/index.html".

(** The listener responded to the event. *)
Definition intercepts (l : Listener) (s : CacheStorage) : Prop :=
  result (l s) <> None.

(** Some entry of the Static File Set cannot be fetched and stored. *)
Definition static_caching_fails (h : Host) : Prop :=
  exists path, In path STATIC_FILES /\ entry_cacheable h path = false.

(** The deletion of some stale store among the existing ones fails. *)
Definition some_deletion_fails (h : Host) (s : CacheStorage) : Prop :=
  exists name, In name (cacheNames_of s) /\ is_stale name = true /\ delete_rejects h name = true.

(** The names [caches.delete] was called with, in call order. *)
Definition deletions (es : list Effect) : list string :=
  flat_map (fun e => match e with CacheDelete name => [name] | _ => [] end) es.

(** The requests [fetch] was called with, in call order. *)
Definition fetches (es : list Effect) : list Request :=
  flat_map (fun e => match e with NetworkFetch r => [r] | _ => [] end) es.

(** ** Concrete hosts for the scenarios *)

(** Parser for serialized http(s) URLs, [scheme://authority/path?query#hash]:
    the origin is everything before the first slash after the authority,
    the pathname runs to the first [?] or [#]. *)
Fixpoint path_part (s : string) : string :=
  match s with
  | EmptyString => EmptyString
  | String c s' =>
      if Ascii.eqb c "?" || Ascii.eqb c "#" then EmptyString else String c (path_part s')
  end.

Fixpoint split_authority (s : string) : string * string :=
  match s with
  | EmptyString => (EmptyString, EmptyString)
  | String c s' =>
      if Ascii.eqb c "/" then (EmptyString, s)
      else let (a, rest) := split_authority s' in (String c a, rest)
  end.

Definition parse_serialized_URL (u : string) : URL :=
  match String.index 0 "://" u with
  | Some k =>
      let (authority, rest) := split_authority (substring (k + 3) (String.length u) u) in
      {| origin := substring 0 (k + 3) u +:+ authority;
         pathname := match rest with EmptyString => "/" | _ => path_part rest end |}
  | None => {| origin := "null"; pathname := path_part u |}
  end.

Definition page (u : string) : Response :=
  {| status := 200; type := basic; body := "contents of " +:+ u |}.

(** A host with the network up and a store that accepts every operation. *)
Definition onlineHost : Host :=
  {| location_origin := "https://onedaymaid.example";
     parseURL := parse_serialized_URL;
     fetch_result := fun request => Fulfilled (Some (page (url request)));
     delete_rejects := fun _ => false;
     put_rejects := fun _ _ => false;
     connected_clients := ["tab-1"; "tab-2"] |}.

(** The same host, except that the manifest cannot be fetched. *)
Definition manifestDownHost : Host :=
  {| location_origin := location_origin onlineHost;
     parseURL := parse_serialized_URL;
     fetch_result := fun request =>
       if String.eqb (url request) "https://onedaymaid.example/manifest.json"
       then Rejected "TypeError: Failed to fetch"
       else Fulfilled (Some (page (url request)));
     delete_rejects := fun _ => false;
     put_rejects := fun _ _ => false;
     connected_clients := ["tab-1"; "tab-2"] |}.

(** The same host, except that deleting the store "old-cache-v0" fails. *)
Definition deleteFailsHost : Host :=
  {| location_origin := location_origin onlineHost;
     parseURL := parse_serialized_URL;
     fetch_result := fetch_result onlineHost;
     delete_rejects := fun name => String.eqb name "old-cache-v0";
     put_rejects := fun _ _ => false;
     connected_clients := ["tab-1"; "tab-2"] |}.

(** The same host, except that a fetch resolves to a 404 page. *)
Definition notFoundHost : Host :=
  {| location_origin := location_origin onlineHost;
     parseURL := parse_serialized_URL;
     fetch_result := fun request =>
       Fulfilled (Some {| status := 404; type := basic; body := "not found" |});
     delete_rejects := fun _ => false;
     put_rejects := fun _ _ => false;
     connected_clients := ["tab-1"; "tab-2"] |}.

Definition GET (u : string) : Request := {| method := "GET"; url := u |}.

(** The stores of the activation scenario. *)
Definition scenarioStores : CacheStorage :=
  [("one-day-maid-v1", ∅); ("one-day-maid-static-v1", ∅); ("old-cache-v0", ∅)].

(** Stores with two stale ones ahead of the current ones. *)
Definition twoStaleStores : CacheStorage :=
  [("old-cache-v0", ∅); ("old-cache-v1", ∅);
   ("one-day-maid-v1", ∅); ("one-day-maid-static-v1", ∅)].

(** Stores in which the icon is already cached. *)
Definition iconCachedStores : CacheStorage :=
  [("one-day-maid-v1",
    {["https://onedaymaid.example/icon-192.png" := page "cached icon"]})].

(** ** Push and notification-click listeners (sw.js lines 145-185) *)

Module NotificationAction.
Record t : Type := { action : string; title : string; icon : string }.
End NotificationAction.

Module NotificationOptions.
Record t : Type := {
  body : string;
  icon : string;
  badge : string;
  vibrate : list Z;
  dateOfArrival : Z;
  primaryKey : Z;
  actions : list NotificationAction.t
}.
End NotificationOptions.

(** Calls the two listeners make on the notification capabilities. *)
Inductive NotificationEffect : Type :=
| ShowNotification (title : string) (options : NotificationOptions.t)
| NotificationClose
| OpenWindow (url : string).

(** The push listener: [data] is [event.data] ([None] for a push without
    payload, otherwise the payload's [text()]), [now] is [Date.now()]. *)
Definition push (data : option string) (now : Z) : list NotificationEffect :=
  match data with
  | Some text =>
      let options :=
        {| NotificationOptions.body := text;
           NotificationOptions.icon := "/icon-192.png";
           NotificationOptions.badge := "/icon-72.png";
           NotificationOptions.vibrate := [200; 100; 200]%Z;
           NotificationOptions.dateOfArrival := now;
           NotificationOptions.primaryKey := 1%Z;
           NotificationOptions.actions :=
             [ {| NotificationAction.action := "explore";
                  NotificationAction.title := "Open App";
                  NotificationAction.icon := "/icon-96.png" |};
               {| NotificationAction.action := "close";
                  NotificationAction.title := "Close";
                  NotificationAction.icon := "/icon-96.png" |} ] |} in
      [ShowNotification "One Day Maid" options]
  | None => []
  end.

(** The notification-click listener, for a click with [event.action]. *)
Definition notificationclick (action : string) : list NotificationEffect :=
  NotificationClose ::
  (if String.eqb action "explore" then [OpenWindow "/"] else []).

(** The action buttons of the notifications among some effects. *)
Definition offered_actions (es : list NotificationEffect) : list string :=
  flat_map (fun e => match e with
                     | ShowNotification _ options =>
                         map NotificationAction.action (NotificationOptions.actions options)
                     | _ => []
                     end) es.

(** ** Further observations and scenario hosts *)

(** The messages posted to clients, as (client, message type), in order. *)
Definition posted (es : list Effect) : list (string * string) :=
  flat_map (fun e => match e with
                     | PostMessage client messageType => [(client, messageType)]
                     | _ => []
                     end) es.

(** The URL [cache.addAll] stores a path under. *)
Definition static_url (h : Host) (path : string) : string :=
  url (request_of_path h path).

(** The online host with the network down. *)
Definition offlineHost : Host :=
  {| location_origin := location_origin onlineHost;
     parseURL := parse_serialized_URL;
     fetch_result := fun _ => Rejected "TypeError: Failed to fetch";
     delete_rejects := fun _ => false;
     put_rejects := fun _ _ => false;
     connected_clients := ["tab-1"; "tab-2"] |}.

(** The online host with a store that refuses every write. *)
Definition putFailsHost : Host :=
  {| location_origin := location_origin onlineHost;
     parseURL := parse_serialized_URL;
     fetch_result := fetch_result onlineHost;
     delete_rejects := fun _ => false;
     put_rejects := fun _ _ => true;
     connected_clients := ["tab-1"; "tab-2"] |}.

Definition POST (u : string) : Request := {| method := "POST"; url := u |}.

(** * Properties *)

(** ** Facts about the string primitives *)

Module JSStringFacts.
Import JSString.

Lemma app_nil (b : string) : "" +:+ b = b.
Proof. reflexivity. Qed.

Lemma app_cons (c : ascii) (a b : string) : String c a +:+ b = String c (a +:+ b).
Proof. reflexivity. Qed.

Lemma length_app (a b : string) :
  String.length (a +:+ b) = (String.length a + String.length b)%nat.
Proof.
  induction a as [|c a IH]; [reflexivity|].
  rewrite app_cons. simpl. now rewrite IH.
Qed.

Lemma substring_full (b : string) : substring 0 (String.length b) b = b.
Proof. induction b as [|c b IH]; simpl; [reflexivity | now rewrite IH]. Qed.

Lemma substring_app_r (a b : string) :
  substring (String.length a) (String.length b) (a +:+ b) = b.
Proof.
  induction a as [|c a IH].
  - rewrite app_nil. apply substring_full.
  - rewrite app_cons. simpl. exact IH.
Qed.

Lemma substring_split (s : string) (k m : nat) :
  (k + m = String.length s)%nat ->
  exists pre, s = pre +:+ substring k m s.
Proof.
  revert k m. induction s as [|c s IH]; intros k m Hlen; simpl in Hlen.
  - assert (k = 0%nat) by lia. assert (m = 0%nat) by lia. subst.
    now exists "".
  - destruct k as [|k].
    + exists "". rewrite app_nil. simpl in Hlen. subst m.
      change (S (String.length s)) with (String.length (String c s)).
      now rewrite substring_full.
    + destruct (IH k m) as [pre Hs]; [lia|].
      exists (String c pre). rewrite app_cons. simpl. now rewrite <- Hs.
Qed.

Lemma endsWith_spec (s suffix : string) :
  endsWith s suffix = true <-> exists pre, s = pre +:+ suffix.
Proof.
  unfold endsWith. split.
  - intros H. apply andb_prop in H as [Hle Heq].
    apply Nat.leb_le in Hle. apply String.eqb_eq in Heq.
    destruct (substring_split s (String.length s - String.length suffix)
                (String.length suffix)) as [pre Hs]; [lia|].
    exists pre. now rewrite Heq in Hs.
  - intros [pre ->]. rewrite length_app. apply andb_true_intro. split.
    + apply Nat.leb_le. lia.
    + replace (String.length pre + String.length suffix - String.length suffix)%nat
        with (String.length pre) by lia.
      rewrite substring_app_r. apply String.eqb_refl.
Qed.

Lemma prefix_spec (p s : string) :
  String.prefix p s = true <-> exists rest, s = p +:+ rest.
Proof.
  revert s. induction p as [|c p IH]; intros s.
  - split; [intros _; now exists s | intros _; destruct s; reflexivity].
  - destruct s as [|d s]; simpl.
    + split; [discriminate | intros [r Hr]; discriminate].
    + destruct (ascii_dec c d) as [->|Hne].
      * split.
        -- intros H. apply IH in H as [r Hr]. exists r.
           rewrite app_cons. now rewrite Hr.
        -- intros [r Hr]. rewrite app_cons in Hr. inversion Hr.
           apply IH. now exists r.
      * split; [discriminate|].
        intros [r Hr]. rewrite app_cons in Hr. congruence.
Qed.

Lemma includes_cons (c : ascii) (s sub : string) :
  includes (String c s) sub = String.prefix sub (String c s) || includes s sub.
Proof. reflexivity. Qed.

Lemma includes_spec (s sub : string) :
  includes s sub = true <-> exists a b, s = a +:+ sub +:+ b.
Proof.
  induction s as [|c s IH].
  - unfold includes. rewrite orb_false_r, prefix_spec. split.
    + intros [r Hr]. now exists "", r.
    + intros [a [b Hab]]. destruct a; [now exists b | discriminate].
  - rewrite includes_cons, orb_true_iff, prefix_spec, IH. split.
    + intros [[r Hr] | [a [b Hab]]].
      * now exists "", r.
      * exists (String c a), b. rewrite app_cons. now rewrite Hab.
    + intros [a [b Hab]]. destruct a as [|d a].
      * left. now exists b.
      * right. rewrite app_cons in Hab. inversion Hab. now exists a, b.
Qed.

End JSStringFacts.

(** ** The request classifier *)

Section Classifier.
Import JSString JSStringFacts.

Lemma shouldNotCache_spec (pathname : string) :
  shouldNotCache pathname = true <->
  exists file pre, In file NO_CACHE_FILES /\ pathname = pre +:+ file.
Proof.
  unfold shouldNotCache. rewrite existsb_exists. split.
  - intros [file [Hin Hm]]. exists file.
    apply orb_true_iff in Hm as [Hends | Heq].
    + apply endsWith_spec in Hends as [pre Hpre]. now exists pre.
    + apply String.eqb_eq in Heq. exists "". now rewrite app_nil.
  - intros [file [pre [Hin Hpre]]]. exists file. split; [exact Hin|].
    apply orb_true_iff. left. apply endsWith_spec. now exists pre.
Qed.

Lemma classify_cases (pathname : string) :
  (classify pathname = ALWAYS_FRESH <-> shouldNotCache pathname = true) /\
  (classify pathname = CACHE_PREFERRED <-> shouldNotCache pathname = false).
Proof.
  unfold classify. destruct (shouldNotCache pathname); split; split;
    intros H; try reflexivity; discriminate.
Qed.

End Classifier.

(** C1, amended. A path is classified ALWAYS_FRESH exactly when it ends with
    (or equals) an entry of the No-Cache Path Set, and CACHE_PREFERRED
    otherwise; so every member of the set is ALWAYS_FRESH, and so is every
    longer path that has a member as a suffix. *)
Theorem classify_ALWAYS_FRESH_iff_suffix (P : string) :
  (classify P = ALWAYS_FRESH <->
   exists file pre, In file NO_CACHE_FILES /\ P = pre +:+ file) /\
  (classify P = CACHE_PREFERRED <->
   ~ exists file pre, In file NO_CACHE_FILES /\ P = pre +:+ file) /\
  (In P NO_CACHE_FILES -> classify P = ALWAYS_FRESH).
Proof.
  destruct (classify_cases P) as [Hfresh Hpref].
  pose proof (shouldNotCache_spec P) as Hspec.
  split; [|split].
  - now rewrite Hfresh.
  - rewrite Hpref, <- Hspec. destruct (shouldNotCache P); split; intros H;
      try reflexivity; try discriminate; try (intros H'; discriminate).
    exfalso. now apply H.
  - intros Hin. apply Hfresh, Hspec. exists P, "". split; [exact Hin | reflexivity].
Qed.

(** C1, as stated, fails: "/app/index.html" is not in the No-Cache Path Set
    and is classified ALWAYS_FRESH. *)
Lemma classify_not_membership_counterexample :
  ~ (forall P : string, classify P = ALWAYS_FRESH <-> In P NO_CACHE_FILES).
Proof.
  intros Hclaim.
  assert (Hin : In "/app/index.html" NO_CACHE_FILES)
    by (apply Hclaim; vm_compute; reflexivity).
  simpl in Hin. destruct Hin as [H | [H | [H | []]]]; discriminate H.
Qed.

(** ** The install handler *)

Section Install.
Variable h : Host.

Lemma static_caching_fails_forallb :
  static_caching_fails h <-> forallb (entry_cacheable h) STATIC_FILES = false.
Proof.
  unfold static_caching_fails. split.
  - intros [path [Hin Hbad]].
    destruct (forallb (entry_cacheable h) STATIC_FILES) eqn:Hall; [|reflexivity].
    rewrite forallb_forall in Hall. rewrite (Hall path Hin) in Hbad. discriminate.
  - intros Hall. induction STATIC_FILES as [|path paths IH]; [discriminate|].
    simpl in Hall. apply andb_false_iff in Hall as [Hbad | Hrest].
    + exists path. split; [now left | exact Hbad].
    + destruct (IH Hrest) as [p [Hin Hp]]. exists p. split; [now right | exact Hp].
Qed.

(** The run of [install] when some static file cannot be cached. *)
Lemma install_when_caching_fails (s : CacheStorage) :
  forallb (entry_cacheable h) STATIC_FILES = false ->
  install h s =
  {| stores := stores (caches_open STATIC_CACHE_NAME s);
     effects :=
       ConsoleLog ["Service Worker: Installing..."]
       :: ConsoleLog ["Service Worker: Caching essential files"]
       :: map (fun path => NetworkFetch (request_of_path h path)) STATIC_FILES
       ++ [ConsoleError ["Service Worker: Installation failed"; "cache.addAll failed"]];
     result := Fulfilled tt |}.
Proof.
  intros Hall.
  unfold install, catch_, then_, console_log, console_error, emit, cache_addAll.
  cbn [stores effects result caches_open]. rewrite Hall.
  cbn [stores effects result]. reflexivity.
Qed.

(** The run of [install] when every static file can be cached. *)
Lemma install_when_caching_succeeds (s : CacheStorage) :
  forallb (entry_cacheable h) STATIC_FILES = true ->
  install h s =
  {| stores := update_store STATIC_CACHE_NAME (store_entries h STATIC_FILES)
                 (stores (caches_open STATIC_CACHE_NAME s));
     effects :=
       ConsoleLog ["Service Worker: Installing..."]
       :: ConsoleLog ["Service Worker: Caching essential files"]
       :: map (fun path => NetworkFetch (request_of_path h path)) STATIC_FILES
       ++ [ConsoleLog ["Service Worker: Installation complete"]; SkipWaiting];
     result := Fulfilled tt |}.
Proof.
  intros Hall.
  unfold install, catch_, then_, console_log, console_error, skipWaiting, emit,
    cache_addAll.
  cbn [stores effects result caches_open]. rewrite Hall.
  cbn [stores effects result]. reflexivity.
Qed.

End Install.

(** C2, amended. If caching any single entry of the Static File Set fails
    during install, no entry is stored (the static store is only opened),
    force-activation (skipWaiting) is not signalled and the failure is
    logged; the handler catches the failure, so the promise it hands to the
    host is fulfilled, not rejected, and the host counts the install as
    done. *)
Theorem install_failure_is_caught (h : Host) (s : CacheStorage) :
  static_caching_fails h ->
  let o := install h s in
  ~ In SkipWaiting (effects o) /\
  In (ConsoleError ["Service Worker: Installation failed"; "cache.addAll failed"])
     (effects o) /\
  stores o = stores (caches_open STATIC_CACHE_NAME s) /\
  result o = Fulfilled tt /\
  lifecycle_after_install (result o) = INSTALLED.
Proof.
  intros Hfail o. subst o.
  apply static_caching_fails_forallb in Hfail.
  rewrite (install_when_caching_fails h s Hfail). cbn [stores effects result].
  repeat split.
  - cbn. intuition discriminate.
  - cbn. intuition.
Qed.

Lemma install_failure_is_caught_witness :
  let o := install manifestDownHost [] in
  ~ In SkipWaiting (effects o) /\
  In (ConsoleError ["Service Worker: Installation failed"; "cache.addAll failed"])
     (effects o) /\
  stores o = stores (caches_open STATIC_CACHE_NAME []) /\
  result o = Fulfilled tt /\
  lifecycle_after_install (result o) = INSTALLED.
Proof.
  apply (install_failure_is_caught manifestDownHost []).
  exists "/manifest.json". split; [vm_compute; tauto | vm_compute; reflexivity].
Defined.

(** C2, as stated, fails: with the manifest unreachable, caching one static
    file fails, yet the promise of the install handler does not reject and
    the host does not keep the worker uninstalled. *)
Lemma install_failure_not_rejected_counterexample :
  static_caching_fails manifestDownHost /\
  ~ (exists reason, result (install manifestDownHost []) = Rejected reason) /\
  lifecycle_after_install (result (install manifestDownHost [])) <> UNINSTALLED.
Proof.
  split; [|split].
  - exists "/manifest.json". split; [vm_compute; tauto | vm_compute; reflexivity].
  - intros [reason H]. vm_compute in H. discriminate H.
  - vm_compute. discriminate.
Qed.

(** ** The activate handler *)

Section Activate.
Variable h : Host.

Lemma deletions_app (es es' : list Effect) :
  deletions (es ++ es') = deletions es ++ deletions es'.
Proof. unfold deletions. apply flat_map_app. Qed.

Lemma filter_true {A} (f : A -> bool) (l : list A) :
  (forall x, f x = true) -> List.filter f l = l.
Proof.
  intros Hf. induction l as [|x l IH]; [reflexivity|].
  cbn. rewrite Hf. now rewrite IH.
Qed.

Lemma filter_filter {A} (f g : A -> bool) (l : list A) :
  List.filter g (List.filter f l) = List.filter (fun x => f x && g x) l.
Proof.
  induction l as [|x l IH]; [reflexivity|]. cbn.
  destruct (f x); cbn; [destruct (g x); now rewrite IH | exact IH].
Qed.

Lemma prune_stores (name : string) (s : CacheStorage) :
  stores (prune h name s) =
  List.filter (fun nc => negb (String.eqb (fst nc) name && negb (survives h name))) s.
Proof.
  unfold prune, survives.
  destruct (is_stale name) eqn:Hstale; cbn [negb orb].
  - unfold then_, console_log, emit, caches_delete. cbn [stores effects result].
    destruct (delete_rejects h name) eqn:Hrej; cbn [stores effects result negb].
    + symmetry. apply filter_true. intros a. now rewrite andb_false_r.
    + apply filter_ext. intros a. now rewrite andb_true_r.
  - cbn [resolve stores]. symmetry. apply filter_true.
    intros a. now rewrite andb_false_r.
Qed.

Lemma prune_deletions (name : string) (s : CacheStorage) :
  deletions (effects (prune h name s)) = if is_stale name then [name] else [].
Proof.
  unfold prune. destruct (is_stale name); [|reflexivity].
  unfold then_, console_log, emit, caches_delete. cbn [stores effects result].
  destruct (delete_rejects h name); reflexivity.
Qed.

Lemma prune_result (name : string) (s : CacheStorage) :
  if deletion_fails h name
  then result (prune h name s) = Rejected "caches.delete failed"
  else exists v, result (prune h name s) = Fulfilled v.
Proof.
  unfold prune, deletion_fails.
  destruct (is_stale name); cbn [andb]; [|now eexists].
  unfold then_, console_log, emit, caches_delete. cbn [stores effects result].
  destruct (delete_rejects h name); cbn [stores effects result resolve];
    [reflexivity | now eexists].
Qed.

Lemma prune_no_claim (name : string) (s : CacheStorage) :
  ~ In ClientsClaim (effects (prune h name s)).
Proof.
  unfold prune. destruct (is_stale name); [|intros []].
  unfold then_, console_log, emit, caches_delete. cbn [stores effects result].
  destruct (delete_rejects h name); cbn; intuition discriminate.
Qed.

(** Pruning a list of names, whatever the outcome of each deletion. *)
Lemma prune_all_stores (names : list string) (s : CacheStorage) :
  stores (Promise_all (map (prune h) names) s) =
  List.filter (fun nc => negb (pruned_by h names nc)) s.
Proof.
  revert s. induction names as [|n names IH]; intros s.
  - cbn. symmetry. now apply filter_true.
  - cbn [map Promise_all stores]. rewrite IH, prune_stores, filter_filter.
    apply filter_ext. intros nc. unfold pruned_by. cbn [existsb].
    now rewrite negb_orb.
Qed.

Lemma prune_all_deletions (names : list string) (s : CacheStorage) :
  deletions (effects (Promise_all (map (prune h) names) s)) = List.filter is_stale names.
Proof.
  revert s. induction names as [|n names IH]; intros s; [reflexivity|].
  cbn [map Promise_all effects List.filter]. rewrite deletions_app, IH, prune_deletions.
  now destruct (is_stale n).
Qed.

Lemma prune_all_no_claim (names : list string) (s : CacheStorage) :
  ~ In ClientsClaim (effects (Promise_all (map (prune h) names) s)).
Proof.
  revert s. induction names as [|n names IH]; intros s; [intros []|].
  cbn [map Promise_all effects]. rewrite in_app_iff.
  intros [H | H]; [now apply prune_no_claim in H | now apply IH in H].
Qed.

Lemma prune_all_result (names : list string) (s : CacheStorage) :
  if existsb (deletion_fails h) names
  then result (Promise_all (map (prune h) names) s) = Rejected "caches.delete failed"
  else exists l, result (Promise_all (map (prune h) names) s) = Fulfilled l.
Proof.
  revert s. induction names as [|n names IH]; intros s; [now eexists|].
  cbn [map Promise_all result existsb].
  pose proof (prune_result n s) as Hn.
  specialize (IH (stores (prune h n s))).
  destruct (deletion_fails h n); cbn [orb].
  - now rewrite Hn.
  - destruct Hn as [v ->].
    destruct (existsb (deletion_fails h) names); [now rewrite IH|].
    destruct IH as [l ->]. now eexists.
Qed.

(** Among the names of the stores themselves, pruning removes exactly the
    stores that do not survive. *)
Lemma pruned_by_own_names (s : CacheStorage) (nc : string * Cache) :
  In nc s -> pruned_by h (cacheNames_of s) nc = negb (survives h (fst nc)).
Proof.
  intros Hin. unfold pruned_by.
  destruct (survives h (fst nc)) eqn:Hsurv; cbn [negb].
  - apply not_true_is_false. intros Hex.
    apply existsb_exists in Hex as [n [_ Hn]].
    apply andb_prop in Hn as [Heq Hn]. apply String.eqb_eq in Heq. subst n.
    rewrite Hsurv in Hn. discriminate.
  - apply existsb_exists. exists (fst nc). split.
    + unfold cacheNames_of. now apply in_map.
    + now rewrite String.eqb_refl, Hsurv.
Qed.

(** The run of [activate]: the stores left, and the effects and result
    according to whether a deletion failed. *)
Lemma activate_stores (s : CacheStorage) :
  stores (activate h s) = List.filter (fun nc => survives h (fst nc)) s.
Proof.
  assert (Hs : stores (activate h s) =
               stores (Promise_all (map (prune h) (cacheNames_of s)) s)).
  { unfold activate, then_, console_log, clients_claim, emit, caches_keys.
    cbn [stores effects result].
    destruct (result (Promise_all (map (prune h) (cacheNames_of s)) s)); reflexivity. }
  rewrite Hs, prune_all_stores. apply filter_ext_in. intros nc Hin.
  rewrite (pruned_by_own_names s nc Hin). apply negb_involutive.
Qed.

Lemma activate_effects (s : CacheStorage) :
  effects (activate h s) =
  ConsoleLog ["Service Worker: Activating..."]
  :: effects (Promise_all (map (prune h) (cacheNames_of s)) s)
  ++ (if existsb (deletion_fails h) (cacheNames_of s) then []
      else [ConsoleLog ["Service Worker: Activation complete"]; ClientsClaim]).
Proof.
  pose proof (prune_all_result (cacheNames_of s) s) as Hres.
  unfold activate, then_, console_log, clients_claim, emit, caches_keys.
  cbn [stores effects result app].
  destruct (existsb (deletion_fails h) (cacheNames_of s)).
  - rewrite Hres. cbn [stores effects result]. now rewrite app_nil_r.
  - destruct Hres as [l ->]. cbn [stores effects result app]. reflexivity.
Qed.

Lemma activate_result (s : CacheStorage) :
  result (activate h s) =
  if existsb (deletion_fails h) (cacheNames_of s)
  then Rejected "caches.delete failed" else Fulfilled tt.
Proof.
  pose proof (prune_all_result (cacheNames_of s) s) as Hres.
  unfold activate, then_, console_log, clients_claim, emit, caches_keys.
  cbn [stores effects result app].
  destruct (existsb (deletion_fails h) (cacheNames_of s)).
  - rewrite Hres. reflexivity.
  - destruct Hres as [l ->]. reflexivity.
Qed.

Lemma activate_deletions (s : CacheStorage) :
  deletions (effects (activate h s)) = List.filter is_stale (cacheNames_of s).
Proof.
  rewrite activate_effects.
  change (ConsoleLog ?a :: ?l) with ([ConsoleLog a] ++ l).
  rewrite !deletions_app, prune_all_deletions.
  destruct (existsb (deletion_fails h) (cacheNames_of s)); cbn; now rewrite app_nil_r.
Qed.

Lemma some_deletion_fails_existsb (s : CacheStorage) :
  some_deletion_fails h s <-> existsb (deletion_fails h) (cacheNames_of s) = true.
Proof.
  unfold some_deletion_fails, deletion_fails. rewrite existsb_exists.
  split; intros [name [Hin H]]; exists name; (split; [exact Hin|]).
  - destruct H as [-> ->]. reflexivity.
  - now apply andb_prop in H.
Qed.

Lemma is_stale_spec (name : string) :
  is_stale name = true <-> name <> CACHE_NAME /\ name <> STATIC_CACHE_NAME.
Proof.
  unfold is_stale. rewrite andb_true_iff, !negb_true_iff, !String.eqb_neq. tauto.
Qed.

End Activate.

(** C3, amended. During activation pruning a deletion is requested for every
    stale store whatever happens to the others, and every stale store whose
    own deletion does not fail is removed; but taking over the open
    instances (clients.claim) is signalled only when no deletion fails: when
    one fails, the promise of the activate handler rejects and clients.claim
    is not called. *)
Theorem activate_claims_only_when_no_deletion_fails (h : Host) (s : CacheStorage) :
  let o := activate h s in
  deletions (effects o) = List.filter is_stale (cacheNames_of s) /\
  stores o = List.filter (fun nc => survives h (fst nc)) s /\
  (In ClientsClaim (effects o) <-> ~ some_deletion_fails h s) /\
  ((exists reason, result o = Rejected reason) <-> some_deletion_fails h s).
Proof.
  intros o. subst o. split; [apply activate_deletions|].
  split; [apply activate_stores|].
  rewrite activate_effects, activate_result, some_deletion_fails_existsb.
  destruct (existsb (deletion_fails h) (cacheNames_of s)); split.
  - rewrite app_nil_r. split; [|intros H; now contradiction H].
    intros [H | H]; [discriminate H | now apply prune_all_no_claim in H].
  - split; [reflexivity | intros _; eauto].
  - split; [intros _; discriminate|]. intros _. right.
    apply in_app_iff. right. right. now left.
  - split; [intros [reason H]; discriminate H | discriminate].
Qed.

(** C3, as stated, fails: when deleting "old-cache-v0" fails, the other stale
    store is still deleted, but clients.claim is never signalled. *)
Lemma activate_failed_deletion_blocks_claim_counterexample :
  some_deletion_fails deleteFailsHost twoStaleStores /\
  In "old-cache-v1" (deletions (effects (activate deleteFailsHost twoStaleStores))) /\
  ~ In ClientsClaim (effects (activate deleteFailsHost twoStaleStores)).
Proof.
  split; [|split].
  - exists "old-cache-v0". vm_compute. tauto.
  - vm_compute. tauto.
  - vm_compute. intuition discriminate.
Qed.

(** C8. When the host carries out the deletions it is asked for, activation
    requests the deletion of exactly the stores named neither
    "one-day-maid-v1" nor "one-day-maid-static-v1", never of a current one,
    and the stores left are exactly the current ones; from the names
    "one-day-maid-v1", "one-day-maid-static-v1", "old-cache-v0" only
    "old-cache-v0" is deleted. *)
Theorem activate_deletes_exactly_stale_stores (h : Host) (s : CacheStorage) :
  (forall name, delete_rejects h name = false) ->
  let o := activate h s in
  (forall name, In name (deletions (effects o)) <->
                In name (cacheNames_of s) /\
                name <> "one-day-maid-v1" /\ name <> "one-day-maid-static-v1") /\
  (forall name, In name (cacheNames_of (stores o)) <->
                In name (cacheNames_of s) /\
                (name = "one-day-maid-v1" \/ name = "one-day-maid-static-v1")) /\
  (cacheNames_of s = ["one-day-maid-v1"; "one-day-maid-static-v1"; "old-cache-v0"] ->
   deletions (effects o) = ["old-cache-v0"] /\
   cacheNames_of (stores o) = ["one-day-maid-v1"; "one-day-maid-static-v1"]).
Proof.
  intros Hok o. subst o.
  assert (Hnames : cacheNames_of (stores (activate h s)) =
                   List.filter (fun n => negb (is_stale n)) (cacheNames_of s)).
  { rewrite activate_stores. unfold cacheNames_of, survives.
    induction s as [|[n c] s IH]; [reflexivity|].
    cbn [List.filter map fst]. rewrite Hok, orb_false_r.
    destruct (negb (is_stale n)); cbn [map fst]; now rewrite IH. }
  rewrite Hnames, activate_deletions.
  split; [|split].
  - intros name. rewrite filter_In, is_stale_spec. reflexivity.
  - intros name. rewrite filter_In, negb_true_iff.
    pose proof (is_stale_spec name) as Hst. unfold CACHE_NAME, STATIC_CACHE_NAME in Hst.
    destruct (is_stale name).
    + split; [intros [_ H]; discriminate H|].
      intros [_ H]. destruct Hst as [Hst _]. specialize (Hst eq_refl). tauto.
    + split; [|tauto]. intros [Hin _]. split; [exact Hin|].
      destruct (String.eqb_spec name "one-day-maid-v1") as [|Hn1]; [now left|].
      destruct (String.eqb_spec name "one-day-maid-static-v1") as [|Hn2]; [now right|].
      destruct Hst as [_ Hst]. specialize (Hst (conj Hn1 Hn2)). discriminate Hst.
  - intros ->. split; reflexivity.
Qed.

Lemma activate_deletes_exactly_stale_stores_witness :
  deletions (effects (activate onlineHost scenarioStores)) = ["old-cache-v0"] /\
  cacheNames_of (stores (activate onlineHost scenarioStores)) =
  ["one-day-maid-v1"; "one-day-maid-static-v1"].
Proof.
  apply (activate_deletes_exactly_stale_stores onlineHost scenarioStores).
  - intros name. reflexivity.
  - reflexivity.
Defined.

(** C9. Activation pruning is idempotent: running the activation a second
    time, on the stores the first run left, leaves the same stores, hence
    the same set of store names. *)
Theorem activate_idempotent (h : Host) (s : CacheStorage) :
  stores (activate h (stores (activate h s))) = stores (activate h s) /\
  cacheNames_of (stores (activate h (stores (activate h s)))) =
  cacheNames_of (stores (activate h s)).
Proof.
  assert (H : stores (activate h (stores (activate h s))) = stores (activate h s)).
  { rewrite !activate_stores, filter_filter. apply filter_ext.
    intros nc. apply andb_diag. }
  split; [exact H | now rewrite H].
Qed.

(** ** The fetch listeners *)

Section Fetch.
Variable h : Host.

Lemma forEach_postMessage (clients : list string) (messageType : string)
      (s : CacheStorage) :
  forEach clients (fun client => postMessage client messageType) s =
  {| stores := s;
     effects := map (fun client => PostMessage client messageType) clients;
     result := Fulfilled tt |}.
Proof.
  induction clients as [|c clients IH]; [reflexivity|].
  cbn [forEach map]. unfold then_ at 1.
  change (postMessage c messageType s)
    with {| stores := s; effects := [PostMessage c messageType]; result := Fulfilled tt |}.
  cbn beta iota delta [stores effects result]. rewrite IH. reflexivity.
Qed.

(** The run of the update notifier: it never writes to a store. *)
Lemma updateNotifier_run (request : Request) (s : CacheStorage) :
  updateNotifier h request s =
  if notifier_condition h request then
    {| stores := s;
       effects :=
         NetworkFetch request ::
         match fetch_result h request with
         | Fulfilled _ =>
             map (fun client => PostMessage client "UPDATE_AVAILABLE") (connected_clients h)
         | Rejected _ => []
         end;
       result :=
         Some match fetch_result h request with
              | Fulfilled response => Fulfilled response
              | Rejected _ => Fulfilled (match_in s request)
              end |}
  else pass s.
Proof.
  unfold updateNotifier, notifier_condition.
  destruct (_ || _); [|reflexivity].
  unfold respondWith, catch_, then_ at 1, fetch. cbn [stores effects result].
  destruct (fetch_result h request) as [response | reason]; cbn [stores effects result].
  - unfold then_, detached, clients_matchAll. cbn [stores effects result resolve].
    rewrite forEach_postMessage. cbn [stores effects result].
    now rewrite !app_nil_r.
  - reflexivity.
Qed.

(** The router passes on every request that is not a same-origin GET. *)
Lemma router_passes (request : Request) (s : CacheStorage) :
  ~ same_origin_GET h request -> router h request s = pass s.
Proof.
  unfold same_origin_GET, router. intros Hnot.
  destruct (String.eqb_spec (method request) "GET") as [Hm | Hm]; [|reflexivity].
  destruct (String.eqb_spec (origin (parseURL h (url request))) (location_origin h))
    as [Ho | Ho]; [|reflexivity].
  exfalso. now apply Hnot.
Qed.

(** The run of the router on a same-origin GET: network first. *)
Lemma router_network_first (request : Request) (s : CacheStorage) :
  same_origin_GET h request ->
  policy_of h request = ALWAYS_FRESH ->
  router h request s =
  {| stores := s;
     effects := [NetworkFetch request];
     result :=
       Some match fetch_result h request with
            | Fulfilled response => Fulfilled response
            | Rejected _ => Fulfilled (match_in s request)
            end |}.
Proof.
  intros [Hm Ho] Hpol. apply classify_cases in Hpol.
  unfold router. rewrite Hm, Ho, !String.eqb_refl, Hpol. cbn [negb].
  unfold respondWith, catch_, then_, fetch, resolve, caches_match.
  cbn [stores effects result].
  destruct (fetch_result h request); reflexivity.
Qed.

(** The run of the router on a same-origin GET: cache first. *)
Lemma router_cache_first (request : Request) (s : CacheStorage) :
  same_origin_GET h request ->
  policy_of h request = CACHE_PREFERRED ->
  router h request s =
  match match_in s request with
  | Some cached =>
      {| stores := s; effects := []; result := Some (Fulfilled (Some cached)) |}
  | None =>
      match fetch_result h request with
      | Rejected reason =>
          {| stores := s; effects := [NetworkFetch request];
             result := Some (Rejected reason) |}
      | Fulfilled fetchResponse =>
          {| stores :=
               match fetchResponse with
               | Some r =>
                   if not_cacheable fetchResponse then s
                   else stores (cache_put h CACHE_NAME request r
                                  (stores (caches_open CACHE_NAME s)))
               | None => s
               end;
             effects := [NetworkFetch request];
             result := Some (Fulfilled fetchResponse) |}
      end
  end.
Proof.
  intros [Hm Ho] Hpol. apply classify_cases in Hpol.
  unfold router. rewrite Hm, Ho, !String.eqb_refl, Hpol. cbn [negb].
  unfold respondWith, then_, caches_match, fetch, detached, resolve, clone.
  cbn [stores effects result app].
  destruct (match_in s request) as [cached|]; [reflexivity|].
  cbn [stores effects result app].
  destruct (fetch_result h request) as [[r|] | reason]; try reflexivity.
  destruct (not_cacheable (Some r)) eqn:Hnc; [reflexivity|].
  cbn [stores effects result app caches_open].
  unfold cache_put. destruct (put_rejects h request r); reflexivity.
Qed.

(** On a same-origin GET the router always responds, so the event never
    reaches the update notifier. *)
Lemma dispatch_same_origin_GET (request : Request) (s : CacheStorage) :
  same_origin_GET h request -> dispatchFetch h request s = router h request s.
Proof.
  intros Hsame. unfold dispatchFetch.
  destruct (policy_of h request) eqn:Hpol.
  - rewrite (router_network_first request s Hsame Hpol). reflexivity.
  - rewrite (router_cache_first request s Hsame Hpol).
    destruct (match_in s request); [reflexivity|].
    destruct (fetch_result h request); reflexivity.
Qed.

(** Every other request reaches the update notifier. *)
Lemma dispatch_other_request (request : Request) (s : CacheStorage) :
  ~ same_origin_GET h request ->
  dispatchFetch h request s = updateNotifier h request s.
Proof.
  intros Hnot. unfold dispatchFetch. rewrite (router_passes request s Hnot).
  cbn [pass stores effects result]. now destruct (updateNotifier h request s).
Qed.

Lemma same_origin_GET_dec (request : Request) :
  same_origin_GET h request \/ ~ same_origin_GET h request.
Proof.
  unfold same_origin_GET.
  destruct (String.eqb_spec (method request) "GET");
    destruct (String.eqb_spec (origin (parseURL h (url request))) (location_origin h));
    tauto.
Qed.

Lemma not_cacheable_spec (fetchResponse : option Response) :
  not_cacheable fetchResponse = true <->
  fetchResponse = None \/
  exists r, fetchResponse = Some r /\ (status r <> 200%Z \/ type r <> basic).
Proof.
  unfold not_cacheable. destruct fetchResponse as [r|].
  - rewrite orb_true_iff, !negb_true_iff, Z.eqb_neq. split.
    + intros H. right. exists r. split; [reflexivity|].
      destruct H as [H | H]; [now left | right].
      intros Ht. rewrite Ht in H. discriminate H.
    + intros [H | [r' [Hr H]]]; [discriminate H|]. inversion Hr; subst r'.
      destruct H as [H | H]; [now left | right].
      destruct (type r); try reflexivity. now contradiction H.
  - split; [intros _; now left | reflexivity].
Qed.

End Fetch.

(** ** Named stores: opening and writing *)

Section Stores.

Lemma find_store_update_eq (name : string) (f : Cache -> Cache) (s : CacheStorage) :
  find_store name (update_store name f s) = option_map f (find_store name s).
Proof.
  induction s as [|[n c] s IH]; [reflexivity|]. cbn [update_store find_store].
  destruct (String.eqb n name) eqn:Hn; cbn [find_store]; rewrite Hn;
    [reflexivity | exact IH].
Qed.

Lemma find_store_update_ne (name other : string) (f : Cache -> Cache) (s : CacheStorage) :
  other <> name -> find_store other (update_store name f s) = find_store other s.
Proof.
  intros Hne. induction s as [|[n c] s IH]; [reflexivity|].
  cbn [update_store find_store].
  destruct (String.eqb n name) eqn:Hn; cbn [find_store].
  - apply String.eqb_eq in Hn. subst n.
    destruct (String.eqb_spec name other); [congruence | reflexivity].
  - now rewrite IH.
Qed.

Lemma find_store_app (name : string) (s s' : CacheStorage) :
  find_store name (s ++ s') =
  match find_store name s with Some c => Some c | None => find_store name s' end.
Proof.
  induction s as [|[n c] s IH]; [reflexivity|]. cbn [app find_store].
  now destruct (String.eqb n name).
Qed.

Lemma find_store_open_eq (name : string) (s : CacheStorage) :
  exists c, find_store name (stores (caches_open name s)) = Some c.
Proof.
  unfold caches_open. cbn [stores].
  destruct (find_store name s) as [c|] eqn:Hfind; [now exists c|].
  exists ∅. rewrite find_store_app, Hfind. cbn [find_store].
  now rewrite String.eqb_refl.
Qed.

Lemma find_store_open_ne (name other : string) (s : CacheStorage) :
  other <> name -> find_store other (stores (caches_open name s)) = find_store other s.
Proof.
  intros Hne. unfold caches_open. cbn [stores].
  destruct (find_store name s); [reflexivity|].
  rewrite find_store_app. destruct (find_store other s); [reflexivity|].
  cbn [find_store]. destruct (String.eqb_spec name other); [congruence | reflexivity].
Qed.

Lemma match_in_app (s s' : CacheStorage) (request : Request) :
  match_in (s ++ s') request =
  match match_in s request with Some r => Some r | None => match_in s' request end.
Proof.
  induction s as [|[n c] s IH]; [reflexivity|]. cbn [app match_in].
  now destruct (cache_lookup c request).
Qed.

Lemma match_in_open (name : string) (s : CacheStorage) (request : Request) :
  match_in (stores (caches_open name s)) request = match_in s request.
Proof.
  unfold caches_open. cbn [stores].
  destruct (find_store name s); [reflexivity|].
  rewrite match_in_app. destruct (match_in s request); [reflexivity|].
  cbn [match_in]. unfold cache_lookup.
  destruct (String.eqb (method request) "GET"); [now rewrite lookup_empty | reflexivity].
Qed.

Lemma cache_lookup_put (c : Cache) (request : Request) (r : Response) :
  method request = "GET" ->
  cache_lookup (<[url request := r]> c) request = Some r.
Proof.
  intros Hm. unfold cache_lookup. rewrite Hm, String.eqb_refl.
  apply lookup_insert_eq.
Qed.

(** A response put into an existing store is what [caches.match] finds
    when no store matched the request before. *)
Lemma match_in_put (name : string) (s : CacheStorage) (request : Request) (r : Response) :
  method request = "GET" ->
  match_in s request = None ->
  (exists c, find_store name s = Some c) ->
  match_in (update_store name (fun c => <[url request := r]> c) s) request = Some r.
Proof.
  intros Hm. induction s as [|[n c] s IH]; intros Hmiss [c0 Hfind]; [discriminate|].
  cbn [match_in] in Hmiss. cbn [find_store] in Hfind. cbn [update_store].
  destruct (cache_lookup c request) eqn:Hc; [discriminate|].
  destruct (String.eqb n name); cbn [match_in].
  - now rewrite cache_lookup_put.
  - rewrite Hc. apply IH; [exact Hmiss | now exists c0].
Qed.

End Stores.

(** C4, amended. The update notifier responds to a request, with a network
    fetch of its own, exactly when the request URL contains "index.html"
    anywhere or equals the origin followed by "/", whatever the method and
    the origin of the request; so it responds to every request for the root
    document that reaches it, and also to other requests. *)
Theorem updateNotifier_intercepts_iff (h : Host) (request : Request) (s : CacheStorage) :
  (intercepts (updateNotifier h request) s <->
   (exists a b, url request = a +:+ "index.html" +:+ b) \/
   url request = location_origin h +:+ "/") /\
  (In (NetworkFetch request) (effects (updateNotifier h request s)) <->
   intercepts (updateNotifier h request) s) /\
  (targets_root_document h request -> intercepts (updateNotifier h request) s).
Proof.
  assert (Hcond : notifier_condition h request = true <->
                  (exists a b, url request = a +:+ "index.html" +:+ b) \/
                  url request = location_origin h +:+ "/").
  { unfold notifier_condition.
    now rewrite orb_true_iff, JSStringFacts.includes_spec, String.eqb_eq. }
  assert (Hint : intercepts (updateNotifier h request) s <->
                 notifier_condition h request = true).
  { unfold intercepts. rewrite updateNotifier_run.
    destruct (notifier_condition h request); cbn [pass result].
    - split; [reflexivity | discriminate].
    - split; [intros H; now contradiction H | discriminate]. }
  split; [|split].
  - now rewrite Hint.
  - rewrite Hint, updateNotifier_run.
    destruct (notifier_condition h request); cbn [pass effects].
    + split; [reflexivity | intros _; now left].
    + split; [intros [] | discriminate].
  - intros Hroot. apply Hint, Hcond. destruct Hroot as [Hroot | Hroot]; [now right|].
    left. exists (location_origin h +:+ "/"), "". rewrite Hroot.
    clear. induction (location_origin h) as [|c o IH]; [reflexivity|].
    rewrite !JSStringFacts.app_cons. now rewrite IH.
Qed.

(** C4, as stated, fails: a cross-origin POST whose URL merely contains
    "index.html" is not a request for the root document, and the update
    notifier responds to it with its own fetch. *)
Lemma updateNotifier_substring_counterexample :
  let request :=
    {| method := "POST"; url := "https://cdn.example.net/old/myindex.html.bak" |} in
  ~ targets_root_document onlineHost request /\
  ~ same_origin_GET onlineHost request /\
  intercepts (updateNotifier onlineHost request) [] /\
  intercepts (dispatchFetch onlineHost request) [] /\
  In (NetworkFetch request) (effects (dispatchFetch onlineHost request [])).
Proof.
  cbv zeta. repeat split.
  - intros [H | H]; vm_compute in H; discriminate H.
  - intros [H _]. vm_compute in H. discriminate H.
  - vm_compute. discriminate.
  - vm_compute. discriminate.
  - vm_compute. now left.
Qed.

(** C5. For a same-origin GET request classified CACHE_PREFERRED whose exact
    request has a cache entry, the response is that cached entry, and
    handling the fetch event makes no network fetch (no host call at all)
    and leaves the stores as they were: the router responds, so no other
    listener is run for the event. *)
Theorem cache_hit_served_without_network
        (h : Host) (request : Request) (s : CacheStorage) (cached : Response) :
  same_origin_GET h request ->
  policy_of h request = CACHE_PREFERRED ->
  match_in s request = Some cached ->
  let o := dispatchFetch h request s in
  result o = Some (Fulfilled (Some cached)) /\
  fetches (effects o) = [] /\
  effects o = [] /\
  stores o = s /\
  router h request s = o.
Proof.
  intros Hsame Hpol Hhit o. subst o.
  rewrite (dispatch_same_origin_GET h request s Hsame).
  rewrite (router_cache_first h request s Hsame Hpol), Hhit.
  cbn [stores effects result]. repeat split.
Qed.

Lemma cache_hit_served_without_network_witness :
  let o := dispatchFetch onlineHost (GET "https://onedaymaid.example/icon-192.png")
             iconCachedStores in
  result o = Some (Fulfilled (Some (page "cached icon"))) /\
  fetches (effects o) = [] /\
  effects o = [] /\
  stores o = iconCachedStores /\
  router onlineHost (GET "https://onedaymaid.example/icon-192.png") iconCachedStores = o.
Proof.
  apply (cache_hit_served_without_network onlineHost
           (GET "https://onedaymaid.example/icon-192.png") iconCachedStores
           (page "cached icon")).
  - split; vm_compute; reflexivity.
  - vm_compute. reflexivity.
  - vm_compute. reflexivity.
Defined.

(** C6. For a same-origin GET request classified CACHE_PREFERRED with no
    cache entry, when the network fetch returns a status-200 response of
    type basic (and the host store accepts the write), the original response
    is returned to the caller and a copy is stored in the generic store
    "one-day-maid-v1" under the request: that store maps the request to the
    response, the other stores are unchanged, and a later [caches.match] of
    the request finds the copy. *)
Theorem cache_miss_stores_copy_in_generic_store
        (h : Host) (request : Request) (s : CacheStorage) (r : Response) :
  same_origin_GET h request ->
  policy_of h request = CACHE_PREFERRED ->
  match_in s request = None ->
  fetch_result h request = Fulfilled (Some r) ->
  status r = 200%Z ->
  type r = basic ->
  put_rejects h request r = false ->
  let o := dispatchFetch h request s in
  result o = Some (Fulfilled (Some r)) /\
  fetches (effects o) = [request] /\
  (exists generic, find_store "one-day-maid-v1" (stores o) = Some generic /\
                   cache_lookup generic request = Some r) /\
  (forall other, other <> "one-day-maid-v1" ->
                 find_store other (stores o) = find_store other s) /\
  match_in (stores o) request = Some r.
Proof.
  intros Hsame Hpol Hmiss Hfetch Hstatus Htype Hput o. subst o.
  rewrite (dispatch_same_origin_GET h request s Hsame).
  rewrite (router_cache_first h request s Hsame Hpol), Hmiss, Hfetch.
  assert (Hnc : not_cacheable (Some r) = false).
  { unfold not_cacheable. now rewrite Hstatus, Htype. }
  rewrite Hnc. unfold cache_put. rewrite Hput. cbn [stores effects result].
  destruct Hsame as [Hm _].
  destruct (find_store_open_eq CACHE_NAME s) as [c Hc].
  split; [reflexivity|]. split; [reflexivity|]. split; [|split].
  - exists (<[url request := r]> c). split.
    + change "one-day-maid-v1" with CACHE_NAME.
      now rewrite find_store_update_eq, Hc.
    + now apply cache_lookup_put.
  - intros other Hne. change "one-day-maid-v1" with CACHE_NAME in Hne.
    rewrite find_store_update_ne by exact Hne. now apply find_store_open_ne.
  - apply match_in_put; [exact Hm | now rewrite match_in_open | now exists c].
Qed.

Lemma cache_miss_stores_copy_in_generic_store_witness :
  let request := GET "https://onedaymaid.example/icon-192.png" in
  let o := dispatchFetch onlineHost request [] in
  result o = Some (Fulfilled (Some (page "https://onedaymaid.example/icon-192.png"))) /\
  fetches (effects o) = [request] /\
  (exists generic,
      find_store "one-day-maid-v1" (stores o) = Some generic /\
      cache_lookup generic request =
      Some (page "https://onedaymaid.example/icon-192.png")) /\
  (forall other, other <> "one-day-maid-v1" ->
                 find_store other (stores o) = find_store other []) /\
  match_in (stores o) request = Some (page "https://onedaymaid.example/icon-192.png").
Proof.
  apply (cache_miss_stores_copy_in_generic_store onlineHost
           (GET "https://onedaymaid.example/icon-192.png") []
           (page "https://onedaymaid.example/icon-192.png")).
  - split; vm_compute; reflexivity.
  - vm_compute. reflexivity.
  - reflexivity.
  - reflexivity.
  - reflexivity.
  - reflexivity.
  - reflexivity.
Defined.

(** C7. For every request classified ALWAYS_FRESH, when the network fetch
    succeeds, every store is the same after the fetch event as before, and
    the response handed to the caller is the fresh one, unchanged: the
    router responds with it to a same-origin GET, and no listener responds
    with anything else to any other request. *)
Theorem always_fresh_response_never_stored
        (h : Host) (request : Request) (s : CacheStorage) (fresh : option Response) :
  policy_of h request = ALWAYS_FRESH ->
  fetch_result h request = Fulfilled fresh ->
  let o := dispatchFetch h request s in
  stores o = s /\
  (same_origin_GET h request -> result o = Some (Fulfilled fresh)) /\
  (forall response, result o = Some response -> response = Fulfilled fresh).
Proof.
  intros Hpol Hfetch o. subst o.
  destruct (same_origin_GET_dec h request) as [Hsame | Hother].
  - rewrite (dispatch_same_origin_GET h request s Hsame).
    rewrite (router_network_first h request s Hsame Hpol), Hfetch.
    cbn [stores effects result]. split; [reflexivity|]. split; [reflexivity|].
    intros response H. now inversion H.
  - rewrite (dispatch_other_request h request s Hother), updateNotifier_run, Hfetch.
    destruct (notifier_condition h request); cbn [pass stores effects result].
    + split; [reflexivity|]. split; [reflexivity|].
      intros response H. now inversion H.
    + split; [reflexivity|]. split; [intros H; now contradiction Hother | discriminate].
Qed.

Lemma always_fresh_response_never_stored_witness :
  let request := GET "https://onedaymaid.example/index.html" in
  let o := dispatchFetch onlineHost request iconCachedStores in
  stores o = iconCachedStores /\
  (same_origin_GET onlineHost request ->
   result o = Some (Fulfilled (Some (page "https://onedaymaid.example/index.html")))) /\
  (forall response, result o = Some response ->
     response = Fulfilled (Some (page "https://onedaymaid.example/index.html"))).
Proof.
  apply (always_fresh_response_never_stored onlineHost
           (GET "https://onedaymaid.example/index.html") iconCachedStores
           (Some (page "https://onedaymaid.example/index.html"))).
  - vm_compute. reflexivity.
  - reflexivity.
Defined.

(** C10. In the CACHE_PREFERRED miss path, a network response that is
    absent, has a status other than 200, or is not of type basic is returned
    to the caller unchanged, and no store is modified. *)
Theorem cache_miss_invalid_response_not_stored
        (h : Host) (request : Request) (s : CacheStorage)
        (fetchResponse : option Response) :
  same_origin_GET h request ->
  policy_of h request = CACHE_PREFERRED ->
  match_in s request = None ->
  fetch_result h request = Fulfilled fetchResponse ->
  (fetchResponse = None \/
   exists r, fetchResponse = Some r /\ (status r <> 200%Z \/ type r <> basic)) ->
  let o := dispatchFetch h request s in
  result o = Some (Fulfilled fetchResponse) /\ stores o = s.
Proof.
  intros Hsame Hpol Hmiss Hfetch Hinvalid o. subst o.
  apply not_cacheable_spec in Hinvalid.
  rewrite (dispatch_same_origin_GET h request s Hsame).
  rewrite (router_cache_first h request s Hsame Hpol), Hmiss, Hfetch.
  cbn [stores effects result]. split; [reflexivity|].
  destruct fetchResponse as [r|]; [now rewrite Hinvalid | reflexivity].
Qed.

Lemma cache_miss_invalid_response_not_stored_witness :
  let request := GET "https://onedaymaid.example/icon-192.png" in
  let o := dispatchFetch notFoundHost request scenarioStores in
  result o =
  Some (Fulfilled (Some {| status := 404; type := basic; body := "not found" |})) /\
  stores o = scenarioStores.
Proof.
  apply (cache_miss_invalid_response_not_stored notFoundHost
           (GET "https://onedaymaid.example/icon-192.png") scenarioStores
           (Some {| status := 404; type := basic; body := "not found" |})).
  - split; vm_compute; reflexivity.
  - vm_compute. reflexivity.
  - reflexivity.
  - reflexivity.
  - right. eexists. split; [reflexivity|]. left. discriminate.
Defined.

(** * Further properties of the handlers *)

(** ** The router on requests it does not handle, and on failures *)

(** X1. The router leaves alone every request that is not a GET or is not
    for the worker's own origin: it does not respond, calls nothing and
    changes no store. *)
Theorem router_ignores_other_requests (h : Host) (request : Request) (s : CacheStorage) :
  method request <> "GET" \/ origin (parseURL h (url request)) <> location_origin h ->
  result (router h request s) = None /\
  effects (router h request s) = [] /\
  stores (router h request s) = s.
Proof.
  intros Hother. rewrite router_passes; [repeat split|].
  intros [Hm Ho]. destruct Hother as [H | H]; now apply H.
Qed.

Lemma router_ignores_other_requests_witness :
  result (router onlineHost (POST "https://onedaymaid.example/index.html") iconCachedStores)
  = None /\
  effects (router onlineHost (POST "https://onedaymaid.example/index.html") iconCachedStores)
  = [] /\
  stores (router onlineHost (POST "https://onedaymaid.example/index.html") iconCachedStores)
  = iconCachedStores.
Proof.
  apply (router_ignores_other_requests onlineHost
           (POST "https://onedaymaid.example/index.html") iconCachedStores).
  left. discriminate.
Defined.

(** X2. Network-first fallback: for a same-origin GET classified
    ALWAYS_FRESH whose network fetch fails, the router answers with what
    [caches.match] finds for the request, after exactly one fetch and
    without changing a store; when nothing is cached the promise is
    fulfilled with [undefined], not rejected. *)
Theorem network_first_falls_back_to_cache
        (h : Host) (request : Request) (s : CacheStorage) (reason : string) :
  same_origin_GET h request ->
  policy_of h request = ALWAYS_FRESH ->
  fetch_result h request = Rejected reason ->
  let o := dispatchFetch h request s in
  result o = Some (Fulfilled (match_in s request)) /\
  fetches (effects o) = [request] /\
  stores o = s /\
  (match_in s request = None -> result o = Some (Fulfilled None)).
Proof.
  intros Hsame Hpol Hfetch o. subst o.
  rewrite (dispatch_same_origin_GET h request s Hsame).
  rewrite (router_network_first h request s Hsame Hpol), Hfetch.
  cbn [stores effects result]. repeat split. intros ->. reflexivity.
Qed.

Lemma network_first_falls_back_to_cache_witness :
  let request := GET "https://onedaymaid.example/index.html" in
  let o := dispatchFetch offlineHost request iconCachedStores in
  result o = Some (Fulfilled (match_in iconCachedStores request)) /\
  fetches (effects o) = [request] /\
  stores o = iconCachedStores /\
  (match_in iconCachedStores request = None -> result o = Some (Fulfilled None)).
Proof.
  apply (network_first_falls_back_to_cache offlineHost
           (GET "https://onedaymaid.example/index.html") iconCachedStores
           "TypeError: Failed to fetch").
  - split; vm_compute; reflexivity.
  - vm_compute. reflexivity.
  - reflexivity.
Defined.

(** X3. In the cache-first miss path a failed network fetch is passed on to
    the caller as it is: the response promise rejects with the fetch's
    reason, and no store is created or changed. *)
Theorem cache_miss_fetch_failure_propagates
        (h : Host) (request : Request) (s : CacheStorage) (reason : string) :
  same_origin_GET h request ->
  policy_of h request = CACHE_PREFERRED ->
  match_in s request = None ->
  fetch_result h request = Rejected reason ->
  let o := dispatchFetch h request s in
  result o = Some (Rejected reason) /\ stores o = s /\ fetches (effects o) = [request].
Proof.
  intros Hsame Hpol Hmiss Hfetch o. subst o.
  rewrite (dispatch_same_origin_GET h request s Hsame).
  rewrite (router_cache_first h request s Hsame Hpol), Hmiss, Hfetch.
  repeat split.
Qed.

Lemma cache_miss_fetch_failure_propagates_witness :
  let request := GET "https://onedaymaid.example/icon-192.png" in
  let o := dispatchFetch offlineHost request scenarioStores in
  result o = Some (Rejected "TypeError: Failed to fetch") /\
  stores o = scenarioStores /\ fetches (effects o) = [request].
Proof.
  apply (cache_miss_fetch_failure_propagates offlineHost
           (GET "https://onedaymaid.example/icon-192.png") scenarioStores
           "TypeError: Failed to fetch").
  - split; vm_compute; reflexivity.
  - vm_compute. reflexivity.
  - reflexivity.
  - reflexivity.
Defined.

(** X4. A refused cache write is ignored: in the cache-first miss path, when
    the host rejects [cache.put] of a cacheable response, the caller still
    gets the fetched response, the generic store has been opened but nothing
    was written, and the request still has no cache entry. *)
Theorem cache_write_failure_is_ignored
        (h : Host) (request : Request) (s : CacheStorage) (r : Response) :
  same_origin_GET h request ->
  policy_of h request = CACHE_PREFERRED ->
  match_in s request = None ->
  fetch_result h request = Fulfilled (Some r) ->
  status r = 200%Z ->
  type r = basic ->
  put_rejects h request r = true ->
  let o := dispatchFetch h request s in
  result o = Some (Fulfilled (Some r)) /\
  stores o = stores (caches_open CACHE_NAME s) /\
  match_in (stores o) request = None.
Proof.
  intros Hsame Hpol Hmiss Hfetch Hstatus Htype Hput o. subst o.
  assert (Hnc : not_cacheable (Some r) = false).
  { unfold not_cacheable. now rewrite Hstatus, Htype. }
  rewrite (dispatch_same_origin_GET h request s Hsame).
  rewrite (router_cache_first h request s Hsame Hpol), Hmiss, Hfetch, Hnc.
  unfold cache_put. rewrite Hput. cbn [stores effects result].
  repeat split. now rewrite match_in_open.
Qed.

Lemma cache_write_failure_is_ignored_witness :
  let request := GET "https://onedaymaid.example/icon-192.png" in
  let o := dispatchFetch putFailsHost request [] in
  result o = Some (Fulfilled (Some (page "https://onedaymaid.example/icon-192.png"))) /\
  stores o = stores (caches_open CACHE_NAME []) /\
  match_in (stores o) request = None.
Proof.
  apply (cache_write_failure_is_ignored putFailsHost
           (GET "https://onedaymaid.example/icon-192.png") []
           (page "https://onedaymaid.example/icon-192.png")).
  - split; vm_compute; reflexivity.
  - vm_compute. reflexivity.
  - reflexivity.
  - reflexivity.
  - reflexivity.
  - reflexivity.
  - reflexivity.
Defined.

(** ** What handling a fetch event keeps and what it costs *)

Section FetchInvariants.
Variable h : Host.

Lemma request_eq (a b : Request) :
  method a = method b -> url a = url b -> a = b.
Proof. destruct a, b. cbn. now intros -> ->. Qed.

Lemma cache_lookup_put_other (c : Cache) (request other : Request) (r : Response) :
  method request = "GET" ->
  other <> request ->
  cache_lookup (<[url request := r]> c) other = cache_lookup c other.
Proof.
  intros Hm Hne. unfold cache_lookup.
  destruct (String.eqb_spec (method other) "GET") as [Hmo|]; [|reflexivity].
  apply lookup_insert_ne. intros Hu. apply Hne. apply request_eq; congruence.
Qed.

(** Writing a request into some store does not disturb what any other
    request matches. *)
Lemma match_in_put_other (name : string) (s : CacheStorage)
      (request other : Request) (r : Response) :
  method request = "GET" ->
  other <> request ->
  match_in (update_store name (fun c => <[url request := r]> c) s) other =
  match_in s other.
Proof.
  intros Hm Hne. induction s as [|[n c] s IH]; [reflexivity|].
  cbn [update_store]. destruct (String.eqb n name); cbn [match_in].
  - now rewrite cache_lookup_put_other.
  - now rewrite IH.
Qed.

(** The stores a fetch event leaves are the ones it found, possibly with
    the generic store opened and the request written into it. *)
Lemma dispatchFetch_stores (request : Request) (s : CacheStorage) :
  stores (dispatchFetch h request s) = s \/
  stores (dispatchFetch h request s) = stores (caches_open CACHE_NAME s) \/
  (method request = "GET" /\ match_in s request = None /\
   exists r, stores (dispatchFetch h request s) =
             update_store CACHE_NAME (fun c => <[url request := r]> c)
               (stores (caches_open CACHE_NAME s))).
Proof.
  destruct (same_origin_GET_dec h request) as [Hsame | Hother].
  - rewrite (dispatch_same_origin_GET h request s Hsame).
    destruct (policy_of h request) eqn:Hpol.
    + rewrite (router_network_first h request s Hsame Hpol). now left.
    + rewrite (router_cache_first h request s Hsame Hpol).
      destruct (match_in s request) eqn:Hmiss; [now left|].
      destruct (fetch_result h request) as [[r|] | reason]; try (now left).
      cbn [stores]. destruct (not_cacheable (Some r)); [now left|].
      unfold cache_put. destruct (put_rejects h request r); cbn [stores].
      * right. now left.
      * right. right. destruct Hsame as [Hm _]. repeat split; [exact Hm|]. now exists r.
  - rewrite (dispatch_other_request h request s Hother), updateNotifier_run.
    left. now destruct (notifier_condition h request).
Qed.

Lemma dispatchFetch_fetches (request : Request) (s : CacheStorage) :
  fetches (effects (dispatchFetch h request s)) = [] \/
  fetches (effects (dispatchFetch h request s)) = [request].
Proof.
  assert (Hposts : forall clients,
             fetches (map (fun client => PostMessage client "UPDATE_AVAILABLE") clients) = []).
  { intros clients. induction clients as [|c cs IH]; [reflexivity | exact IH]. }
  destruct (same_origin_GET_dec h request) as [Hsame | Hother].
  - rewrite (dispatch_same_origin_GET h request s Hsame).
    destruct (policy_of h request) eqn:Hpol.
    + rewrite (router_network_first h request s Hsame Hpol). now right.
    + rewrite (router_cache_first h request s Hsame Hpol).
      destruct (match_in s request); [now left|].
      destruct (fetch_result h request); now right.
  - rewrite (dispatch_other_request h request s Hother), updateNotifier_run.
    destruct (notifier_condition h request); [|now left]. right.
    cbn [effects]. destruct (fetch_result h request); [|reflexivity].
    change (fetches (NetworkFetch request :: ?l)) with (request :: fetches l).
    now rewrite Hposts.
Qed.

End FetchInvariants.

(** X5. Handling a fetch event never evicts or replaces a cached response:
    whatever the request and the host's answers, every request that had a
    match in the stores before has the same match afterwards. *)
Theorem fetch_event_preserves_cached_matches
        (h : Host) (request : Request) (s : CacheStorage)
        (other : Request) (cached : Response) :
  match_in s other = Some cached ->
  match_in (stores (dispatchFetch h request s)) other = Some cached.
Proof.
  intros Hhit.
  destruct (dispatchFetch_stores h request s) as [-> | [-> | [Hm [Hmiss [r ->]]]]].
  - exact Hhit.
  - now rewrite match_in_open.
  - rewrite match_in_put_other, match_in_open; [exact Hhit | exact Hm |].
    intros ->. rewrite Hmiss in Hhit. discriminate Hhit.
Qed.

Lemma fetch_event_preserves_cached_matches_witness :
  match_in (stores (dispatchFetch onlineHost (GET "https://onedaymaid.example/logo.png")
                      iconCachedStores))
           (GET "https://onedaymaid.example/icon-192.png")
  = Some (page "cached icon").
Proof.
  apply (fetch_event_preserves_cached_matches onlineHost
           (GET "https://onedaymaid.example/logo.png") iconCachedStores
           (GET "https://onedaymaid.example/icon-192.png") (page "cached icon")).
  reflexivity.
Defined.

(** X6. Handling one fetch event makes at most one network fetch, and only
    of the intercepted request itself. *)
Theorem fetch_event_fetches_at_most_once (h : Host) (request : Request) (s : CacheStorage) :
  fetches (effects (dispatchFetch h request s)) = [] \/
  fetches (effects (dispatchFetch h request s)) = [request].
Proof. apply dispatchFetch_fetches. Qed.

(** X7. A miss fills the cache for the next request: after a same-origin GET
    classified CACHE_PREFERRED missed the cache and its status-200 basic
    response was stored, the same request handled again is answered with
    that response from the cache, with no network fetch and no further
    change to the stores. *)
Theorem second_request_served_from_cache
        (h : Host) (request : Request) (s : CacheStorage) (r : Response) :
  same_origin_GET h request ->
  policy_of h request = CACHE_PREFERRED ->
  match_in s request = None ->
  fetch_result h request = Fulfilled (Some r) ->
  status r = 200%Z ->
  type r = basic ->
  put_rejects h request r = false ->
  let first := dispatchFetch h request s in
  let second := dispatchFetch h request (stores first) in
  result second = Some (Fulfilled (Some r)) /\
  effects second = [] /\
  stores second = stores first.
Proof.
  intros Hsame Hpol Hmiss Hfetch Hstatus Htype Hput first second.
  assert (Hhit : match_in (stores first) request = Some r).
  { subst first. rewrite (dispatch_same_origin_GET h request s Hsame).
    rewrite (router_cache_first h request s Hsame Hpol), Hmiss, Hfetch.
    assert (Hnc : not_cacheable (Some r) = false)
      by (unfold not_cacheable; now rewrite Hstatus, Htype).
    rewrite Hnc. unfold cache_put. rewrite Hput. cbn [stores].
    destruct Hsame as [Hm _].
    destruct (find_store_open_eq CACHE_NAME s) as [c Hc].
    apply match_in_put; [exact Hm | now rewrite match_in_open | now exists c]. }
  subst second. rewrite (dispatch_same_origin_GET h request _ Hsame).
  rewrite (router_cache_first h request _ Hsame Hpol), Hhit.
  repeat split.
Qed.

Lemma second_request_served_from_cache_witness :
  let request := GET "https://onedaymaid.example/icon-192.png" in
  let first := dispatchFetch onlineHost request [] in
  let second := dispatchFetch onlineHost request (stores first) in
  result second = Some (Fulfilled (Some (page "https://onedaymaid.example/icon-192.png"))) /\
  effects second = [] /\
  stores second = stores first.
Proof.
  apply (second_request_served_from_cache onlineHost
           (GET "https://onedaymaid.example/icon-192.png") []
           (page "https://onedaymaid.example/icon-192.png")).
  - split; vm_compute; reflexivity.
  - vm_compute. reflexivity.
  - reflexivity.
  - reflexivity.
  - reflexivity.
  - reflexivity.
  - reflexivity.
Defined.

(** ** Install: what a successful run stores, and running it again *)

Section InstallFacts.
Variable h : Host.

Lemma entry_cacheable_fetch (path : string) :
  entry_cacheable h path = true ->
  exists r, fetch_result h (request_of_path h path) = Fulfilled (Some r).
Proof.
  unfold entry_cacheable.
  destruct (fetch_result h (request_of_path h path)) as [[r|] | reason];
    [now exists r | discriminate | discriminate].
Qed.

(** An entry that agrees with the network's answer for its URL outlives the
    remaining insertions. *)
Lemma store_entries_keep (paths : list string) (c : Cache) (u : string) (r : Response) :
  c !! u = Some r ->
  fetch_result h {| method := "GET"; url := u |} = Fulfilled (Some r) ->
  store_entries h paths c !! u = Some r.
Proof.
  intros Hc Hfetch. revert c Hc. induction paths as [|p paths IH]; intros c Hc; [exact Hc|].
  cbn [store_entries].
  destruct (fetch_result h (request_of_path h p)) as [[r'|] | reason] eqn:Hp;
    try (now apply IH).
  apply IH. destruct (String.eqb_spec (url (request_of_path h p)) u) as [Hu | Hu].
  - rewrite Hu. rewrite lookup_insert_eq. f_equal.
    unfold request_of_path in Hp, Hu. cbn [url] in Hu. rewrite Hu in Hp. congruence.
  - now rewrite lookup_insert_ne.
Qed.

Lemma store_entries_lookup (paths : list string) (c : Cache) (path : string) (r : Response) :
  In path paths ->
  fetch_result h (request_of_path h path) = Fulfilled (Some r) ->
  store_entries h paths c !! static_url h path = Some r.
Proof.
  intros Hin Hfetch. revert c. induction paths as [|p paths IH]; intros c; [destruct Hin|].
  cbn [store_entries]. destruct Hin as [-> | Hin].
  - rewrite Hfetch. apply store_entries_keep; [apply lookup_insert_eq | exact Hfetch].
  - destruct (fetch_result h (request_of_path h p)) as [[r'|] | reason]; now apply IH.
Qed.

Lemma store_entries_other (paths : list string) (c : Cache) (u : string) :
  (forall path, In path paths -> static_url h path <> u) ->
  store_entries h paths c !! u = c !! u.
Proof.
  revert c. induction paths as [|p paths IH]; intros c Hne; [reflexivity|].
  cbn [store_entries].
  assert (Hrest : forall path, In path paths -> static_url h path <> u)
    by (intros path Hin; apply Hne; now right).
  destruct (fetch_result h (request_of_path h p)) as [[r'|] | reason];
    try (now apply IH).
  rewrite (IH _ Hrest). apply lookup_insert_ne. apply Hne. now left.
Qed.

(** Storing the entries a second time changes nothing. *)
Lemma store_entries_idempotent (paths : list string) (c : Cache) :
  forallb (entry_cacheable h) paths = true ->
  store_entries h paths (store_entries h paths c) = store_entries h paths c.
Proof.
  intros Hall. rewrite forallb_forall in Hall. apply map_eq. intros u.
  destruct (in_dec string_dec u (map (static_url h) paths)) as [Hin | Hout].
  - apply in_map_iff in Hin as [path [<- Hin]].
    destruct (entry_cacheable_fetch path (Hall path Hin)) as [r Hr].
    now rewrite !(store_entries_lookup paths _ path r Hin Hr).
  - assert (Hne : forall path, In path paths -> static_url h path <> u).
    { intros path Hin Hu. apply Hout. apply in_map_iff. now exists path. }
    now rewrite !store_entries_other.
Qed.

Lemma caches_open_existing (name : string) (s : CacheStorage) (c : Cache) :
  find_store name s = Some c -> stores (caches_open name s) = s.
Proof. intros Hc. unfold caches_open. cbn [stores]. now rewrite Hc. Qed.

Lemma caches_open_twice (name : string) (s : CacheStorage) :
  stores (caches_open name (stores (caches_open name s))) = stores (caches_open name s).
Proof.
  destruct (find_store_open_eq name s) as [c Hc]. exact (caches_open_existing _ _ _ Hc).
Qed.

Lemma find_store_open (name : string) (s : CacheStorage) :
  find_store name (stores (caches_open name s)) =
  Some (from_option id ∅ (find_store name s)).
Proof.
  unfold caches_open. cbn [stores].
  destruct (find_store name s) as [c|] eqn:Hfind; [exact Hfind|].
  rewrite find_store_app, Hfind. cbn [find_store]. now rewrite String.eqb_refl.
Qed.

Lemma update_store_twice (name : string) (f : Cache -> Cache) (s : CacheStorage) :
  (forall c, f (f c) = f c) ->
  update_store name f (update_store name f s) = update_store name f s.
Proof.
  intros Hf. induction s as [|[n c] s IH]; [reflexivity|]. cbn [update_store].
  destruct (String.eqb n name) eqn:Hn; cbn [update_store]; rewrite Hn.
  - now rewrite Hf.
  - now rewrite IH.
Qed.

Lemma all_cacheable_forallb :
  (forall path, In path STATIC_FILES -> entry_cacheable h path = true) <->
  forallb (entry_cacheable h) STATIC_FILES = true.
Proof. symmetry. apply forallb_forall. Qed.

End InstallFacts.

(** X8. A successful install: when every entry of STATIC_FILES can be
    fetched and stored, the install promise is fulfilled, each of the five
    paths is fetched once, in order, skipWaiting is signalled, and the
    static store "one-day-maid-static-v1" holds, under the origin followed by
    each path, the response fetched for it; its other entries and the other
    stores are as before. *)
Theorem install_success_fills_static_store (h : Host) (s : CacheStorage) :
  (forall path, In path STATIC_FILES -> entry_cacheable h path = true) ->
  let o := install h s in
  result o = Fulfilled tt /\
  fetches (effects o) = map (request_of_path h) STATIC_FILES /\
  In SkipWaiting (effects o) /\
  (exists static,
      find_store "one-day-maid-static-v1" (stores o) = Some static /\
      (forall path, In path STATIC_FILES ->
         exists r, fetch_result h (request_of_path h path) = Fulfilled (Some r) /\
                   static !! (location_origin h +:+ path) = Some r) /\
      (forall u, (forall path, In path STATIC_FILES -> location_origin h +:+ path <> u) ->
         static !! u = from_option id ∅ (find_store "one-day-maid-static-v1" s) !! u)) /\
  (forall other, other <> "one-day-maid-static-v1" ->
     find_store other (stores o) = find_store other s).
Proof.
  intros Hall o. subst o. pose proof Hall as Hb. apply all_cacheable_forallb in Hb.
  rewrite (install_when_caching_succeeds h s Hb). cbn [stores effects result].
  split; [reflexivity|]. split; [reflexivity|].
  split; [cbn; intuition|]. split.
  - exists (store_entries h STATIC_FILES (from_option id ∅ (find_store STATIC_CACHE_NAME s))).
    change "one-day-maid-static-v1" with STATIC_CACHE_NAME.
    split; [|split].
    + now rewrite find_store_update_eq, find_store_open.
    + intros path Hin. destruct (entry_cacheable_fetch h path (Hall path Hin)) as [r Hr].
      exists r. split; [exact Hr|]. exact (store_entries_lookup h _ _ path r Hin Hr).
    + intros u Hne. now apply store_entries_other.
  - intros other Hne. change "one-day-maid-static-v1" with STATIC_CACHE_NAME in Hne.
    rewrite find_store_update_ne by exact Hne. now apply find_store_open_ne.
Qed.

Lemma install_success_fills_static_store_witness :
  let o := install onlineHost scenarioStores in
  result o = Fulfilled tt /\
  fetches (effects o) = map (request_of_path onlineHost) STATIC_FILES /\
  In SkipWaiting (effects o) /\
  (exists static,
      find_store "one-day-maid-static-v1" (stores o) = Some static /\
      (forall path, In path STATIC_FILES ->
         exists r, fetch_result onlineHost (request_of_path onlineHost path)
                   = Fulfilled (Some r) /\
                   static !! (location_origin onlineHost +:+ path) = Some r) /\
      (forall u, (forall path, In path STATIC_FILES ->
                    location_origin onlineHost +:+ path <> u) ->
         static !! u = from_option id ∅ (find_store "one-day-maid-static-v1" scenarioStores) !! u)) /\
  (forall other, other <> "one-day-maid-static-v1" ->
     find_store other (stores o) = find_store other scenarioStores).
Proof.
  apply (install_success_fills_static_store onlineHost scenarioStores).
  intros path Hin. reflexivity.
Defined.

(** X9. Installing again changes nothing more: whatever the host answers,
    the stores left by a second install, run on the stores the first one
    left, are the stores the first one left. *)
Theorem install_idempotent (h : Host) (s : CacheStorage) :
  stores (install h (stores (install h s))) = stores (install h s).
Proof.
  destruct (forallb (entry_cacheable h) STATIC_FILES) eqn:Hall.
  - rewrite !(install_when_caching_succeeds h _ Hall). cbn [stores].
    destruct (find_store_open_eq STATIC_CACHE_NAME s) as [c Hc].
    rewrite (caches_open_existing STATIC_CACHE_NAME
               (update_store STATIC_CACHE_NAME (store_entries h STATIC_FILES)
                  (stores (caches_open STATIC_CACHE_NAME s)))
               (store_entries h STATIC_FILES c)).
    + apply update_store_twice. intros c'. now apply store_entries_idempotent.
    + now rewrite find_store_update_eq, Hc.
  - rewrite !(install_when_caching_fails h _ Hall). cbn [stores].
    apply caches_open_twice.
Qed.

(** ** Activation and the current stores; the installed worker offline *)

Section CurrentStores.

Lemma find_store_filter (keep : string -> bool) (name : string) (s : CacheStorage) :
  keep name = true ->
  find_store name (List.filter (fun nc => keep (fst nc)) s) = find_store name s.
Proof.
  intros Hkeep. induction s as [|[n c] s IH]; [reflexivity|].
  cbn [List.filter fst find_store].
  destruct (String.eqb_spec n name) as [-> | Hne].
  - rewrite Hkeep. cbn [find_store]. now rewrite String.eqb_refl.
  - destruct (keep n); [cbn [find_store]|]; [|exact IH].
    destruct (String.eqb_spec n name); [contradiction | exact IH].
Qed.

(** A store that holds a response for a request makes [caches.match] of the
    request find a response. *)
Lemma find_store_match (name : string) (s : CacheStorage) (c : Cache)
      (request : Request) (r : Response) :
  find_store name s = Some c ->
  cache_lookup c request = Some r ->
  exists r', match_in s request = Some r'.
Proof.
  induction s as [|[n c0] s IH]; intros Hfind Hc; [discriminate|].
  cbn [find_store] in Hfind. cbn [match_in].
  destruct (cache_lookup c0 request) as [x|] eqn:Hc0; [now exists x|].
  destruct (String.eqb n name).
  - inversion Hfind; subst c0. rewrite Hc in Hc0. discriminate.
  - now apply IH.
Qed.

Lemma find_store_current_after_activate (h : Host) (s : CacheStorage) :
  find_store CACHE_NAME (stores (activate h s)) = find_store CACHE_NAME s /\
  find_store STATIC_CACHE_NAME (stores (activate h s)) = find_store STATIC_CACHE_NAME s.
Proof.
  rewrite activate_stores.
  split; apply (find_store_filter (survives h)); reflexivity.
Qed.

End CurrentStores.

(** X10. Activation keeps the two current stores as they are, contents
    included, whatever else it deletes and whether or not a deletion fails. *)
Theorem activate_keeps_current_stores (h : Host) (s : CacheStorage) :
  find_store "one-day-maid-v1" (stores (activate h s)) = find_store "one-day-maid-v1" s /\
  find_store "one-day-maid-static-v1" (stores (activate h s)) =
  find_store "one-day-maid-static-v1" s.
Proof. exact (find_store_current_after_activate h s). Qed.

(** X11. Offline start after install and activation: once an install in
    which every static file was cached has been followed by activation, a
    GET for any of the static files, arriving while the network is down, is
    answered with a cached response (as fallback for the always-fresh
    files, directly for the others) and leaves the stores unchanged. *)
Theorem static_files_served_offline_after_install
        (online offline : Host) (s : CacheStorage) (path reason : string) :
  (forall p, In p STATIC_FILES -> entry_cacheable online p = true) ->
  In path STATIC_FILES ->
  location_origin offline = location_origin online ->
  origin (parseURL offline (location_origin offline +:+ path)) = location_origin offline ->
  fetch_result offline (request_of_path offline path) = Rejected reason ->
  let installed := stores (activate online (stores (install online s))) in
  let o := dispatchFetch offline (request_of_path offline path) installed in
  (exists cached, result o = Some (Fulfilled (Some cached))) /\
  stores o = installed.
Proof.
  intros Hall Hin Horigin Hparse Hdown installed o.
  assert (Hsame : same_origin_GET offline (request_of_path offline path))
    by (split; [reflexivity | exact Hparse]).
  assert (Hhit : exists cached, match_in installed (request_of_path offline path) = Some cached).
  { pose proof Hall as Hb. apply all_cacheable_forallb in Hb.
    destruct (entry_cacheable_fetch online path (Hall path Hin)) as [r Hr].
    apply (find_store_match STATIC_CACHE_NAME installed
             (store_entries online STATIC_FILES
                (from_option id ∅ (find_store STATIC_CACHE_NAME s))) _ r).
    - subst installed.
      destruct (find_store_current_after_activate online (stores (install online s)))
        as [_ ->].
      rewrite (install_when_caching_succeeds online s Hb). cbn [stores].
      now rewrite find_store_update_eq, find_store_open.
    - unfold cache_lookup. cbn [request_of_path method url]. rewrite Horigin.
      exact (store_entries_lookup online _ _ path r Hin Hr). }
  destruct Hhit as [cached Hhit]. subst o.
  rewrite (dispatch_same_origin_GET offline _ installed Hsame).
  destruct (policy_of offline (request_of_path offline path)) eqn:Hpol.
  - rewrite (router_network_first offline _ installed Hsame Hpol), Hdown, Hhit.
    split; [now exists cached | reflexivity].
  - rewrite (router_cache_first offline _ installed Hsame Hpol), Hhit.
    split; [now exists cached | reflexivity].
Qed.

Lemma static_files_served_offline_after_install_witness :
  let installed := stores (activate onlineHost (stores (install onlineHost twoStaleStores))) in
  let o := dispatchFetch offlineHost (request_of_path offlineHost "/index.html") installed in
  (exists cached, result o = Some (Fulfilled (Some cached))) /\
  stores o = installed.
Proof.
  apply (static_files_served_offline_after_install onlineHost offlineHost twoStaleStores
           "/index.html" "TypeError: Failed to fetch").
  - intros p Hin. reflexivity.
  - right. now left.
  - reflexivity.
  - vm_compute. reflexivity.
  - reflexivity.
Defined.

(** ** The update notifier's broadcast *)

Section Broadcast.
Variable h : Host.

Lemma posted_postMessages (clients : list string) (messageType : string) :
  posted (map (fun client => PostMessage client messageType) clients) =
  map (fun client => (client, messageType)) clients.
Proof.
  induction clients as [|c cs IH]; [reflexivity|].
  cbn [map]. change (posted (PostMessage c messageType :: ?l))
    with ((c, messageType) :: posted l). now rewrite IH.
Qed.

Lemma router_posts_nothing (request : Request) (s : CacheStorage) :
  posted (effects (router h request s)) = [].
Proof.
  destruct (same_origin_GET_dec h request) as [Hsame | Hother].
  - destruct (policy_of h request) eqn:Hpol.
    + now rewrite (router_network_first h request s Hsame Hpol).
    + rewrite (router_cache_first h request s Hsame Hpol).
      destruct (match_in s request); [reflexivity|].
      now destruct (fetch_result h request).
  - now rewrite (router_passes h request s Hother).
Qed.

End Broadcast.

(** X12. When the update notifier responds to a request and its fetch
    succeeds, it returns the fetched response and posts UPDATE_AVAILABLE to
    every connected client, once each and in order; when its fetch fails it
    posts nothing and answers with what [caches.match] finds. In both cases
    it fetches once and changes no store. *)
Theorem updateNotifier_broadcasts_on_success_only
        (h : Host) (request : Request) (s : CacheStorage) :
  intercepts (updateNotifier h request) s ->
  let o := updateNotifier h request s in
  stores o = s /\
  fetches (effects o) = [request] /\
  (forall response, fetch_result h request = Fulfilled response ->
     result o = Some (Fulfilled response) /\
     posted (effects o) =
     map (fun client => (client, "UPDATE_AVAILABLE")) (connected_clients h)) /\
  (forall reason, fetch_result h request = Rejected reason ->
     result o = Some (Fulfilled (match_in s request)) /\
     posted (effects o) = []).
Proof.
  intros Hint o. subst o. unfold intercepts in Hint. revert Hint.
  rewrite updateNotifier_run.
  destruct (notifier_condition h request); [intros _ | intros H; now contradiction H].
  cbn [stores effects result]. split; [reflexivity|]. split; [|split].
  - destruct (fetch_result h request); [|reflexivity].
    change (fetches (NetworkFetch request :: ?l)) with (request :: fetches l).
    f_equal. induction (connected_clients h) as [|c cs IH]; [reflexivity | exact IH].
  - intros response ->. split; [reflexivity|].
    change (posted (NetworkFetch request :: ?l)) with (posted l).
    apply posted_postMessages.
  - intros reason ->. split; reflexivity.
Qed.

Lemma updateNotifier_broadcasts_on_success_only_witness :
  let request := POST "https://onedaymaid.example/index.html" in
  let o := updateNotifier onlineHost request [] in
  stores o = [] /\
  fetches (effects o) = [request] /\
  (forall response, fetch_result onlineHost request = Fulfilled response ->
     result o = Some (Fulfilled response) /\
     posted (effects o) =
     map (fun client => (client, "UPDATE_AVAILABLE")) (connected_clients onlineHost)) /\
  (forall reason, fetch_result onlineHost request = Rejected reason ->
     result o = Some (Fulfilled (match_in [] request)) /\
     posted (effects o) = []).
Proof.
  apply (updateNotifier_broadcasts_on_success_only onlineHost
           (POST "https://onedaymaid.example/index.html") []).
  vm_compute. discriminate.
Defined.

(** X13. A same-origin GET never leads to an update broadcast: the router
    responds to it, the event does not reach the update notifier, and no
    message is posted to any client, whatever the URL. *)
Theorem same_origin_GET_posts_no_update
        (h : Host) (request : Request) (s : CacheStorage) :
  same_origin_GET h request ->
  posted (effects (dispatchFetch h request s)) = [] /\
  intercepts (router h request) s.
Proof.
  intros Hsame. rewrite (dispatch_same_origin_GET h request s Hsame).
  split; [apply router_posts_nothing|]. unfold intercepts.
  destruct (policy_of h request) eqn:Hpol.
  - rewrite (router_network_first h request s Hsame Hpol). discriminate.
  - rewrite (router_cache_first h request s Hsame Hpol).
    destruct (match_in s request); [discriminate|].
    destruct (fetch_result h request); discriminate.
Qed.

Lemma same_origin_GET_posts_no_update_witness :
  posted (effects (dispatchFetch onlineHost (GET "https://onedaymaid.example/index.html") []))
  = [] /\
  intercepts (router onlineHost (GET "https://onedaymaid.example/index.html")) [].
Proof.
  apply (same_origin_GET_posts_no_update onlineHost
           (GET "https://onedaymaid.example/index.html") []).
  split; vm_compute; reflexivity.
Defined.

(** ** The classifier on short paths *)

(** X14. Every path shorter than ten characters is CACHE_PREFERRED (no entry
    of NO_CACHE_FILES fits in it); in particular the empty path and the
    root path "/" are served cache-first. *)
Theorem short_paths_are_cache_preferred (P : string) :
  (String.length P < 10)%nat -> classify P = CACHE_PREFERRED.
Proof.
  intros Hshort. apply classify_cases.
  destruct (shouldNotCache P) eqn:Hsnc; [exfalso | reflexivity].
  apply shouldNotCache_spec in Hsnc as [file [pre [Hin HP]]].
  assert (Hlen : (10 <= String.length file)%nat).
  { cbn in Hin. destruct Hin as [<- | [<- | [<- | []]]]; cbn; lia. }
  rewrite HP, JSStringFacts.length_app in Hshort. lia.
Qed.

Lemma short_paths_are_cache_preferred_witness : classify "/" = CACHE_PREFERRED.
Proof. apply (short_paths_are_cache_preferred "/"). cbn. lia. Defined.

(** ** Push notifications and their clicks *)

(** X15. The notification shown for a push with a payload offers the
    actions "explore" and "close". A click always closes the notification;
    it opens a window, at "/", exactly for the action "explore", so of the
    offered actions only "explore" opens the application, and a click on the
    notification body (empty action) only dismisses it. A push without
    payload shows nothing. *)
Theorem push_actions_and_clicks (text : string) (now : Z) :
  push None now = [] /\
  offered_actions (push (Some text) now) = ["explore"; "close"] /\
  (forall action, exists rest, notificationclick action = NotificationClose :: rest) /\
  (forall action u, In (OpenWindow u) (notificationclick action) <->
                    action = "explore" /\ u = "/") /\
  notificationclick "" = [NotificationClose].
Proof.
  split; [reflexivity|]. split; [reflexivity|]. split; [|split; [|reflexivity]].
  - intros action. unfold notificationclick. now eexists.
  - intros action u. unfold notificationclick.
    destruct (String.eqb_spec action "explore") as [-> | Hne]; cbn.
    + split; [intros [H | [H | []]]; [discriminate H | now inversion H] |].
      intros [_ ->]. right. now left.
    + split; [intros [H | []]; discriminate H | intros [H _]; contradiction].
Qed.

(** ** Requests the worker leaves to the browser *)

(** X16. A fetch event is left unanswered by both listeners exactly when the
    request is not a same-origin GET and its URL neither contains
    "index.html" nor equals the origin followed by "/"; such an event causes
    no host call and no change to the stores. *)
Theorem event_left_to_browser_iff (h : Host) (request : Request) (s : CacheStorage) :
  (result (dispatchFetch h request s) = None <->
   ~ same_origin_GET h request /\
   ~ (exists a b, url request = a +:+ "index.html" +:+ b) /\
   url request <> location_origin h +:+ "/") /\
  (result (dispatchFetch h request s) = None ->
   effects (dispatchFetch h request s) = [] /\ stores (dispatchFetch h request s) = s).
Proof.
  assert (Hcond : notifier_condition h request = false <->
                  ~ (exists a b, url request = a +:+ "index.html" +:+ b) /\
                  url request <> location_origin h +:+ "/").
  { unfold notifier_condition.
    rewrite orb_false_iff, <- !not_true_iff_false, JSStringFacts.includes_spec,
      String.eqb_eq. reflexivity. }
  destruct (same_origin_GET_dec h request) as [Hsame | Hother].
  - assert (Hresp : result (dispatchFetch h request s) <> None).
    { rewrite (dispatch_same_origin_GET h request s Hsame).
      destruct (policy_of h request) eqn:Hpol.
      - rewrite (router_network_first h request s Hsame Hpol). discriminate.
      - rewrite (router_cache_first h request s Hsame Hpol).
        destruct (match_in s request); [discriminate|].
        destruct (fetch_result h request); discriminate. }
    split; [split|]; intros H; [contradiction | | contradiction].
    destruct H as [H _]. contradiction.
  - rewrite (dispatch_other_request h request s Hother), updateNotifier_run.
    destruct (notifier_condition h request); cbn [pass stores effects result].
    + split; [split|]; [discriminate | | discriminate].
      intros [_ H]. apply Hcond in H. discriminate H.
    + split; [split|]; [| reflexivity | now split].
      intros _. split; [exact Hother | now apply Hcond].
Qed.
